(** * teams-meeting-audio: the hybrid realtime bridge (realtime-hybrid.js)

    A shallow embedding of the session orchestration core of
    [realtime-hybrid.js]: the text normalisation applied before speech
    synthesis ([expandAbbreviations]), the search client ([searchExa]),
    the tool executor ([handleToolCall]), the utterance handler
    ([handleUserSpeech]) and the dispatcher of transcription events
    ([ws.on('message')]).

    JavaScript strings are sequences of UTF-16 code units, modelled as
    [list N].  The module-level [let] variables of the script form the
    record [Session]; the asynchronous collaborators (text generation,
    speech synthesis, search) are oracles indexed by the number of calls
    made so far, and everything the script does to the outside world is
    recorded in a trace of [effect]s.  A handler is suspended while one
    of its requests is pending; what the handlers of the events that
    arrive meanwhile do is the [EventLoop] the functions are run with. *)

From Stdlib Require Import List NArith ZArith Bool Ascii String Lia.
Import ListNotations.

Set Implicit Arguments.

(* ================================================================== *)
(** ** JavaScript strings *)

Definition code := N.
Definition jsstring := list code.

(** A literal of the source, given as an ASCII string. *)
Definition lit (s : string) : jsstring :=
  map N_of_ascii (list_ascii_of_string s).

(** The double quote, which the literals of the source contain. *)
Definition dquote : jsstring := [34%N].

Fixpoint jsstring_eqb (a b : jsstring) : bool :=
  match a, b with
  | [], [] => true
  | c :: a', d :: b' => N.eqb c d && jsstring_eqb a' b'
  | _, _ => false
  end.

(** A value is truthy as a string when it is present and non-empty. *)
Definition truthy (o : option jsstring) : bool :=
  match o with
  | Some (_ :: _) => true
  | _ => false
  end.

Section CharClasses.
Local Open Scope N_scope.

Definition between (lo hi c : code) : bool := (lo <=? c) && (c <=? hi).

(** [\w]: the ASCII letters, digits and underscore. *)
Definition isWordChar (c : code) : bool :=
  between 48 57 c || between 65 90 c || (c =? 95) || between 97 122 c.

(** [\s], which is also the set [String.prototype.trim] removes:
    ECMAScript WhiteSpace and LineTerminator. *)
Definition isSpace (c : code) : bool :=
  between 9 13 c || (c =? 32) || (c =? 160) || (c =? 5760)
  || between 8192 8202 c || (c =? 8232) || (c =? 8233) || (c =? 8239)
  || (c =? 8287) || (c =? 12288) || (c =? 65279).

Definition isComma (c : code) : bool := c =? 44.
End CharClasses.

Definition isWordOpt (o : option code) : bool :=
  match o with
  | Some c => isWordChar c
  | None => false
  end.

(** [String.prototype.trim]. *)
Fixpoint dropSpaces (s : jsstring) : jsstring :=
  match s with
  | c :: s' => if isSpace c then dropSpaces s' else s
  | [] => []
  end.

Definition trim (s : jsstring) : jsstring :=
  rev (dropSpaces (rev (dropSpaces s))).

(** Decimal rendering of a number inside a template literal. *)
Fixpoint digitsFuel (fuel : nat) (n : N) (acc : jsstring) : jsstring :=
  match fuel with
  | O => acc
  | S f =>
      let acc' := (48 + n mod 10)%N :: acc in
      if (n <? 10)%N then acc' else digitsFuel f (n / 10)%N acc'
  end.

Definition decimal (n : N) : jsstring :=
  digitsFuel (S (N.to_nat (N.log2 n))) n [].

(** [Array.prototype.join]. *)
Fixpoint join (sep : jsstring) (l : list jsstring) : jsstring :=
  match l with
  | [] => []
  | [x] => x
  | x :: l' => x ++ sep ++ join sep l'
  end.

(* ================================================================== *)
(** ** The regular expressions of [expandAbbreviations]

    Every pattern of the function has the shape [/\bTok\b(?=\s|,|$)/g]:
    a sequence of atoms without alternation outside the look-ahead, so
    matching at a position needs no backtracking. *)

Inductive atom : Type :=
| AWordBoundary                 (* \b *)
| AChar (c : code)              (* a literal character *)
| ALookSpaceCommaEnd.           (* (?=\s|,|$) *)

Definition lookSpaceCommaEnd (s : jsstring) : bool :=
  match s with
  | [] => true
  | c :: _ => isSpace c || isComma c
  end.

(** [matchAtoms p prev s]: match [p] at the position whose preceding
    code unit is [prev] and whose remaining input is [s]; the result is
    the number of code units consumed. *)
Fixpoint matchAtoms (p : list atom) (prev : option code) (s : jsstring)
  : option nat :=
  match p with
  | [] => Some 0
  | AWordBoundary :: p' =>
      if xorb (isWordOpt prev) (isWordOpt (hd_error s))
      then matchAtoms p' prev s else None
  | AChar c :: p' =>
      match s with
      | d :: s' =>
          if N.eqb c d then option_map S (matchAtoms p' (Some d) s')
          else None
      | [] => None
      end
  | ALookSpaceCommaEnd :: p' =>
      if lookSpaceCommaEnd s then matchAtoms p' prev s else None
  end.

(** [String.prototype.replace] with a global pattern: the input is
    scanned from the left; a match emits the replacement and resumes
    after the matched text (one unit further after an empty match); a
    position without match copies its code unit.  [skip] counts the
    units of the current match still to be passed over. *)
Fixpoint replaceFrom (p : list atom) (rep : jsstring) (skip : nat)
         (prev : option code) (s : jsstring) : jsstring :=
  match s with
  | [] =>
      match skip, matchAtoms p prev [] with
      | O, Some _ => rep
      | _, _ => []
      end
  | c :: s' =>
      match skip with
      | S k => replaceFrom p rep k (Some c) s'
      | O =>
          match matchAtoms p prev s with
          | Some (S k) => rep ++ replaceFrom p rep k (Some c) s'
          | Some O => rep ++ c :: replaceFrom p rep 0 (Some c) s'
          | None => c :: replaceFrom p rep 0 (Some c) s'
          end
      end
  end.

Definition abbrevPattern (tok : jsstring) : list atom :=
  AWordBoundary :: map AChar tok ++ [AWordBoundary; ALookSpaceCommaEnd].

(** [text.replace(/\bTok\b(?=\s|,|$)/g, rep)] *)
Definition replaceAbbrev (tok rep : string) (text : jsstring) : jsstring :=
  replaceFrom (abbrevPattern (lit tok)) (lit rep) 0 None text.

Definition expandAbbreviations (text : jsstring) : jsstring :=
  replaceAbbrev "Pl" "Place"
   (replaceAbbrev "Ct" "Court"
    (replaceAbbrev "Ln" "Lane"
     (replaceAbbrev "Rd" "Road"
      (replaceAbbrev "Dr" "Drive"
       (replaceAbbrev "Blvd" "Boulevard"
        (replaceAbbrev "Ave" "Avenue"
         (replaceAbbrev "St" "Street" text))))))).

(** *** The normalisation as the specification words it

    One pass over the input with the fixed table: at a position that is
    preceded by no word character, a token of the table that is followed
    by whitespace, a comma or the end of the input is replaced by its
    expansion; every other code unit is copied. *)

Definition abbreviationTable : list (jsstring * jsstring) :=
  [ (lit "St", lit "Street"); (lit "Ave", lit "Avenue");
    (lit "Blvd", lit "Boulevard"); (lit "Dr", lit "Drive");
    (lit "Rd", lit "Road"); (lit "Ln", lit "Lane");
    (lit "Ct", lit "Court"); (lit "Pl", lit "Place") ].

Fixpoint isPrefix (t s : jsstring) : bool :=
  match t, s with
  | [], _ => true
  | c :: t', d :: s' => N.eqb c d && isPrefix t' s'
  | _ :: _, [] => false
  end.

Definition tokenAt (tok s : jsstring) : bool :=
  isPrefix tok s && lookSpaceCommaEnd (skipn (List.length tok) s).

Fixpoint lookupToken (tbl : list (jsstring * jsstring)) (s : jsstring)
  : option (jsstring * jsstring) :=
  match tbl with
  | [] => None
  | (tok, rep) :: tbl' =>
      if tokenAt tok s then Some (tok, rep) else lookupToken tbl' s
  end.

Fixpoint expandWith (tbl : list (jsstring * jsstring)) (skip : nat)
         (prevWord : bool) (s : jsstring) : jsstring :=
  match s with
  | [] => []
  | c :: s' =>
      match skip with
      | S k => expandWith tbl k (isWordChar c) s'
      | O =>
          match (if prevWord then None else lookupToken tbl s) with
          | Some (tok, rep) =>
              rep ++ expandWith tbl (pred (List.length tok)) (isWordChar c) s'
          | None => c :: expandWith tbl 0 (isWordChar c) s'
          end
      end
  end.

Definition expandSpec (text : jsstring) : jsstring :=
  expandWith abbreviationTable 0 false text.

(** *** The same pass, word by word

    [expandWords] collects each maximal run of word characters and
    replaces it as a whole; it is the form in which the passes of the
    source are composed. *)

Definition boundaryOpt (next : option code) : bool :=
  match next with
  | None => true
  | Some c => isSpace c || isComma c
  end.

Fixpoint findToken (tbl : list (jsstring * jsstring)) (w : jsstring)
  : option jsstring :=
  match tbl with
  | [] => None
  | (tok, rep) :: tbl' =>
      if jsstring_eqb tok w then Some rep else findToken tbl' w
  end.

Definition substWord (tbl : list (jsstring * jsstring)) (w : jsstring)
           (next : option code) : jsstring :=
  if boundaryOpt next
  then match findToken tbl w with
       | Some rep => rep
       | None => w
       end
  else w.

Fixpoint expandWords (tbl : list (jsstring * jsstring)) (acc : jsstring)
         (s : jsstring) : jsstring :=
  match s with
  | [] => substWord tbl (rev acc) None
  | c :: s' =>
      if isWordChar c then expandWords tbl (c :: acc) s'
      else substWord tbl (rev acc) (Some c) ++ c :: expandWords tbl [] s'
  end.

Definition isWord (w : jsstring) : bool := forallb isWordChar w.

Definition nonEmpty (w : jsstring) : bool :=
  match w with
  | [] => false
  | _ :: _ => true
  end.

(** Tokens are non-empty words and expansions are words. *)
Definition goodTable (tbl : list (jsstring * jsstring)) : bool :=
  forallb (fun e => nonEmpty (fst e) && isWord (fst e) && isWord (snd e)) tbl.

(** No expansion of [tbl] is the token [tok]. *)
Definition freshToken (tok : jsstring) (tbl : list (jsstring * jsstring)) : bool :=
  forallb (fun e => negb (jsstring_eqb tok (snd e))) tbl.

(* ================================================================== *)
(** ** Session state, external services and effects *)

Inductive role : Type := User | Assistant | System.

Record turn : Type := mkTurn { turnRole : role; turnContent : jsstring }.

(** The module-level state of the script. *)
Record Session : Type := mkSession {
  conversationHistory : list turn;
  isProcessingResponse : bool;
  isMuted : bool;
  isPaused : bool
}.

Definition initialSession : Session := mkSession [] false false false.

(** The message of a rejected promise or thrown exception. *)
Definition error := jsstring.

Inductive outcome (A : Type) : Type :=
| Resolved (a : A)
| Rejected (e : error).
Arguments Rejected {A} e.

(** [toolCall.function.arguments]: absent, text on which [JSON.parse] or
    the property reads throw, or an object with its two properties. *)
Inductive toolArgs : Type :=
| ArgsAbsent
| ArgsInvalid (e : error)
| ArgsObject (query : option jsstring) (count : option Z).

Record toolCall : Type := mkToolCall {
  functionName : jsstring;
  functionArguments : toolArgs
}.

(** What [generateResponse] resolves with. *)
Record message : Type := mkMessage {
  content : option jsstring;
  tool_calls : list toolCall
}.

(** One entry of the search service's [results]. *)
Record rawResult : Type := mkRaw {
  rawTitle : option jsstring;
  rawSummary : option jsstring;
  rawText : option jsstring;
  rawUrl : option jsstring
}.

Record searchResult : Type := mkResult {
  title : jsstring;
  snippet : jsstring;
  url : jsstring
}.

(** The environment of the process: configuration and the three remote
    services, each answering its [n]-th request. *)
Record World : Type := mkWorld {
  EXA_API_KEY : bool;
  SYSTEM_PROMPT : jsstring;
  completions : nat -> list turn -> outcome message;
  elevenlabs : nat -> jsstring -> outcome unit;
  exa : nat -> jsstring -> Z -> outcome (list rawResult)
}.

Inductive signal : Type :=
| LEAVE_MEETING | MUTED | UNMUTED | PAUSED | RESUMED.

Inductive logline : Type :=
| LogSessionCreated | LogSessionConfigured | LogSpeechDetected
| LogSpeechEnded | LogEventError
| LogUser (transcript : jsstring)
| LogStillProcessing
| LogToolCall (name : jsstring)
| LogLeaving
| LogAlreadyMuted | LogMuted | LogAlreadyUnmuted | LogUnmuted
| LogPaused | LogResumed
| LogNoQuery | LogNoExaKey
| LogSearching (query : jsstring)
| LogGotResults (n : nat)
| LogClaw (text : jsstring)
| LogUnknownTool (name : jsstring)
| LogMutedSkippingTTS
| LogResponseError (e : error)
| LogSearchError (e : error).

(** What the process does to the outside world, in order. *)
Inductive effect : Type :=
| ELog (l : logline)
| ESignal (s : signal)                   (* console.log('SIGNAL:...') *)
| EGenerate (messages : list turn)       (* chat-completions request *)
| ESearch (query : jsstring) (count : Z) (* search request *)
| ESpeak (text : jsstring)               (* audio synthesised and played *)
| ESpeakFailed (text : jsstring)         (* synthesis request that rejected *)
| EExitTimer (ms : Z)                    (* setTimeout(cleanup; exit) *)
| EStartCapture.

Definition isSpeech (e : effect) : bool :=
  match e with
  | ESpeak _ | ESpeakFailed _ => true
  | _ => false
  end.

Definition isSignal (e : effect) : bool :=
  match e with
  | ESignal _ => true
  | _ => false
  end.

Definition isGenerate (e : effect) : bool :=
  match e with
  | EGenerate _ => true
  | _ => false
  end.

(** A command was dispatched to the tool executor. *)
Definition isToolRun (e : effect) : bool :=
  match e with
  | ELog (LogToolCall _) => true
  | _ => false
  end.

(** Anything but a line of diagnostics. *)
Definition isAction (e : effect) : bool :=
  match e with
  | ELog (LogToolCall _) => true
  | ELog _ => false
  | _ => true
  end.

(* ================================================================== *)
(** ** A state, trace and exception monad for the async functions *)

Record St : Type := mkSt { session : Session; requests : nat }.

Inductive result (A : Type) : Type :=
| Ok (a : A)
| Throw (e : error).
Arguments Throw {A} e.

Definition M (A : Type) : Type := St -> result A * St * list effect.

Definition ret {A} (a : A) : M A := fun s => (Ok a, s, []).

Definition bind {A B} (m : M A) (f : A -> M B) : M B :=
  fun s =>
    match m s with
    | (Ok a, s1, t1) => let '(r, s2, t2) := f a s1 in (r, s2, t1 ++ t2)
    | (Throw e, s1, t1) => (Throw e, s1, t1)
    end.

Definition throw {A} (e : error) : M A := fun s => (Throw e, s, []).

(** [try { m } catch (err) { h err }] *)
Definition tryCatch {A} (m : M A) (h : error -> M A) : M A :=
  fun s =>
    match m s with
    | (Throw e, s1, t1) => let '(r, s2, t2) := h e s1 in (r, s2, t1 ++ t2)
    | done => done
    end.

(** [try { m } finally { f }] *)
Definition tryFinally {A} (m : M A) (f : M unit) : M A :=
  fun s =>
    let '(r, s1, t1) := m s in
    match f s1 with
    | (Ok _, s2, t2) => (r, s2, t1 ++ t2)
    | (Throw e, s2, t2) => (Throw e, s2, t1 ++ t2)
    end.

Declare Scope js_scope.
Delimit Scope js_scope with js.
Notation "x <- m ;; k" := (bind m (fun x => k))
  (at level 61, m at next level, right associativity) : js_scope.
Notation "m ;; k" := (bind m (fun _ => k))
  (at level 61, right associativity) : js_scope.
Local Open Scope js_scope.

Definition emit (e : effect) : M unit := fun s => (Ok tt, s, [e]).
Definition log (l : logline) : M unit := emit (ELog l).
Definition getSession : M Session := fun s => (Ok (session s), s, []).
Definition modify (f : Session -> Session) : M unit :=
  fun s => (Ok tt, mkSt (f (session s)) (requests s), []).

(** The number of the next request, counting every request sent. *)
Definition nextRequest : M nat :=
  fun s => (Ok (requests s), mkSt (session s) (S (requests s)), []).

Definition await {A} (o : outcome A) : M A :=
  match o with
  | Resolved a => ret a
  | Rejected e => throw e
  end.

Definition when (b : bool) (m : M unit) : M unit :=
  if b then m else ret tt.

Fixpoint forEach {A} (f : A -> M unit) (l : list A) : M unit :=
  match l with
  | [] => ret tt
  | x :: l' => f x ;; forEach f l'
  end.

Definition set_history (h : list turn) (s : Session) : Session :=
  mkSession h (isProcessingResponse s) (isMuted s) (isPaused s).
Definition set_processing (b : bool) (s : Session) : Session :=
  mkSession (conversationHistory s) b (isMuted s) (isPaused s).
Definition set_muted (b : bool) (s : Session) : Session :=
  mkSession (conversationHistory s) (isProcessingResponse s) b (isPaused s).
Definition set_paused (b : bool) (s : Session) : Session :=
  mkSession (conversationHistory s) (isProcessingResponse s) (isMuted s) b.

(** [conversationHistory.push(t)] *)
Definition push (t : turn) (s : Session) : Session :=
  set_history (conversationHistory s ++ [t]) s.

(** [l.slice(-n)]: the last [n] elements. *)
Definition sliceLast {A} (n : nat) (l : list A) : list A :=
  skipn (List.length l - n) l.

(** [l.slice(0, count)], for an integral [count]. *)
Definition sliceTo {A} (count : Z) (l : list A) : list A :=
  if (count <? 0)%Z
  then firstn (Z.to_nat (Z.max (Z.of_nat (List.length l) + count) 0)) l
  else firstn (Z.to_nat count) l.

(** [if (conversationHistory.length > 20)
      conversationHistory = conversationHistory.slice(-20)] *)
Definition truncateHistory (s : Session) : Session :=
  if 20 <? List.length (conversationHistory s)
  then set_history (sliceLast 20 (conversationHistory s)) s
  else s.

(* ================================================================== *)
(** ** The functions of the script *)

(** An [await] on a request to a service suspends the running handler
    until the request is settled, and the event loop meanwhile runs the
    handlers of the events that arrive.  [whilePending n] is what those
    handlers do while the [n]-th request is pending.  The requests of
    [generateResponse], [searchExa] and [speakElevenLabs] are the only
    places where a handler waits for the outside world. *)
Class EventLoop : Type := whilePending : nat -> St -> St * list effect.

(** No event arrives while a request is pending.  A statement that names
    no event loop is about this one. *)
#[global] Instance undisturbed : EventLoop := fun _ st => (st, []).

Section Bridge.
Variable W : World.
Context {loop : EventLoop}.

(** The running handler is suspended on its [n]-th request. *)
Definition suspended (n : nat) : M unit :=
  fun st => let '(st', t) := whilePending n st in (Ok tt, st', t).

Definition newline : jsstring := [10%N].

(** [generateResponse()]: one request carrying the persona followed by
    the history; the promise rejects on a network failure, on text that
    does not parse and on an answer without choices. *)
Definition generateResponse : M message :=
  s <- getSession ;;
  let messages := mkTurn System (SYSTEM_PROMPT W) :: conversationHistory s in
  n <- nextRequest ;;
  emit (EGenerate messages) ;;
  suspended n ;;
  await (completions W n messages).

(** [x || ''] *)
Definition orEmpty (o : option jsstring) : jsstring :=
  match o with
  | Some x => x
  | None => []
  end.

(** [a || b], on strings that may be absent *)
Definition orElse (a b : option jsstring) : option jsstring :=
  if truthy a then a else b.

Definition normalizeResult (r : rawResult) : searchResult :=
  mkResult (orEmpty (rawTitle r))
           (orEmpty (orElse (rawSummary r) (rawText r)))
           (orEmpty (rawUrl r)).

(** [searchExa(query, count)] *)
Definition searchExa (query : jsstring) (count : Z) : M (list searchResult) :=
  n <- nextRequest ;;
  emit (ESearch query count) ;;
  suspended n ;;
  results <- await (exa W n query count) ;;
  ret (map normalizeResult (sliceTo count results)).

(** [speakElevenLabs(text)] *)
Definition speakElevenLabs (text : jsstring) : M unit :=
  s <- getSession ;;
  if isMuted s then log LogMutedSkippingTTS
  else
    let processedText := expandAbbreviations text in
    n <- nextRequest ;;
    suspended n ;;
    match elevenlabs W n processedText with
    | Resolved _ => emit (ESpeak processedText)
    | Rejected e => emit (ESpeakFailed processedText) ;; throw e
    end.

(** [if (!isMuted) await speakElevenLabs(text)] *)
Definition speakUnlessMuted (text : jsstring) : M unit :=
  s <- getSession ;;
  when (negb (isMuted s)) (speakElevenLabs text).

(** [results.map((r, i) => `${i+1}. ${r.title}: ${r.snippet}`)] *)
Fixpoint resultLines (i : N) (results : list searchResult) : list jsstring :=
  match results with
  | [] => []
  | r :: rs =>
      (decimal (i + 1) ++ lit ". " ++ title r ++ lit ": " ++ snippet r)
        :: resultLines (i + 1) rs
  end.

Definition searchedMarker (searchQuery : jsstring) : jsstring :=
  lit "[Searched for " ++ dquote ++ searchQuery ++ dquote ++ lit "]".

Definition searchResultsPrompt (resultsText : jsstring) : jsstring :=
  lit "Search results:" ++ newline ++ resultsText ++ newline ++ newline
  ++ lit "RULES: Answer ONLY what was asked. For places/venues, list 2-3 options with name and address only. Example format: "
  ++ dquote
  ++ lit "There's [Name] at [Address], [Name] at [Address], and [Name] at [Address]."
  ++ dquote
  ++ lit " No explanations, no suggestions, no filler. One sentence.".

(** [args.count || 3] *)
Definition countOrDefault (count : option Z) : Z :=
  match count with
  | Some c => if (c =? 0)%Z then 3%Z else c
  | None => 3%Z
  end.

(** The body of the [try] block of the [web_search] case, after the
    arguments have been parsed. *)
Definition webSearch (query : option jsstring) (count : option Z) : M unit :=
  let searchCount := countOrDefault count in
  match query with
  | Some (c :: q) =>
      let searchQuery := c :: q in
      if negb (EXA_API_KEY W) then
        log LogNoExaKey ;;
        speakUnlessMuted (lit "Web search isn't configured.")
      else
        log (LogSearching searchQuery) ;;
        results <- searchExa searchQuery searchCount ;;
        match results with
        | [] => speakUnlessMuted (lit "I couldn't find any results for that.")
        | _ :: _ =>
            let resultsText := join newline (resultLines 0 results) in
            log (LogGotResults (List.length results)) ;;
            modify (push (mkTurn Assistant (searchedMarker searchQuery))) ;;
            modify (push (mkTurn System (searchResultsPrompt resultsText))) ;;
            summary <- generateResponse ;;
            s <- getSession ;;
            when (truthy (content summary) && negb (isMuted s))
              (log (LogClaw (orEmpty (content summary))) ;;
               modify (push (mkTurn Assistant (orEmpty (content summary)))) ;;
               speakElevenLabs (orEmpty (content summary)))
        end
  | _ => log LogNoQuery
  end.

Definition parseArguments (a : toolArgs) : M (option jsstring * option Z) :=
  match a with
  | ArgsAbsent => ret (None, None)
  | ArgsInvalid e => throw e
  | ArgsObject q c => ret (q, c)
  end.

(** [handleToolCall(toolCall)] *)
Definition handleToolCall (tc : toolCall) : M unit :=
  let funcName := functionName tc in
  log (LogToolCall funcName) ;;
  if jsstring_eqb funcName (lit "leave_meeting") then
    log LogLeaving ;;
    speakUnlessMuted (lit "Okay, signing off!") ;;
    emit (ESignal LEAVE_MEETING) ;;
    modify (set_paused true) ;;
    emit (EExitTimer 60000)
  else if jsstring_eqb funcName (lit "mute_self") then
    s <- getSession ;;
    if isMuted s then log LogAlreadyMuted
    else
      modify (set_muted true) ;;
      log LogMuted ;;
      emit (ESignal MUTED)
  else if jsstring_eqb funcName (lit "unmute_self") then
    s <- getSession ;;
    if negb (isMuted s) then log LogAlreadyUnmuted
    else
      modify (set_muted false) ;;
      log LogUnmuted ;;
      emit (ESignal UNMUTED)
  else if jsstring_eqb funcName (lit "pause_listening") then
    modify (set_paused true) ;;
    log LogPaused ;;
    emit (ESignal PAUSED) ;;
    speakUnlessMuted (lit "I'll stop listening now. Say my name when you want me back.")
  else if jsstring_eqb funcName (lit "resume_listening") then
    modify (set_paused false) ;;
    log LogResumed ;;
    emit (ESignal RESUMED) ;;
    speakUnlessMuted (lit "I'm listening again. How can I help?")
  else if jsstring_eqb funcName (lit "web_search") then
    tryCatch
      (args <- parseArguments (functionArguments tc) ;;
       webSearch (fst args) (snd args))
      (fun err =>
         log (LogSearchError err) ;;
         speakUnlessMuted (lit "Sorry, the search failed."))
  else
    log (LogUnknownTool funcName).

(** The [try] block of [handleUserSpeech]. *)
Definition processUtterance (transcript : jsstring) : M unit :=
  modify (push (mkTurn User transcript)) ;;
  modify truncateHistory ;;
  result <- generateResponse ;;
  forEach handleToolCall (tool_calls result) ;;
  s <- getSession ;;
  when (truthy (content result) && negb (isMuted s))
    (log (LogClaw (orEmpty (content result))) ;;
     modify (push (mkTurn Assistant (orEmpty (content result)))) ;;
     speakElevenLabs (orEmpty (content result))).

(** [handleUserSpeech(transcript)] *)
Definition handleUserSpeech (transcript : jsstring) : M unit :=
  s <- getSession ;;
  if isProcessingResponse s then log LogStillProcessing
  else
    modify (set_processing true) ;;
    tryFinally
      (tryCatch (processUtterance transcript)
                (fun err => log (LogResponseError err)))
      (modify (set_processing false)).

(** The events of the transcription stream. *)
Inductive event : Type :=
| SessionCreated
| SessionUpdated
| SpeechStarted
| SpeechStopped
| TranscriptionCompleted (transcript : option jsstring)
| ErrorEvent
| OtherEvent.

(** [ws.on('message', ...)] *)
Definition onMessage (ev : event) : M unit :=
  match ev with
  | SessionCreated => log LogSessionCreated
  | SessionUpdated => log LogSessionConfigured ;; emit EStartCapture
  | SpeechStarted =>
      s <- getSession ;; when (negb (isPaused s)) (log LogSpeechDetected)
  | SpeechStopped =>
      s <- getSession ;; when (negb (isPaused s)) (log LogSpeechEnded)
  | TranscriptionCompleted transcript =>
      s <- getSession ;;
      if truthy transcript
         && truthy (option_map trim transcript)
         && negb (isPaused s)
      then
        log (LogUser (orEmpty transcript)) ;;
        handleUserSpeech (orEmpty transcript)
      else ret tt
  | ErrorEvent => log LogEventError
  | OtherEvent => ret tt
  end.

(** A run of the event loop over the events received, one handler
    after the other. *)
Definition onMessages (evs : list event) : M unit := forEach onMessage evs.

End Bridge.

(* ================================================================== *)
(** ** Observations on runs *)

Definition start (s : Session) : St := mkSt s 0.

Definition named (name : string) (a : toolArgs) : toolCall :=
  mkToolCall (lit name) a.

Definition resultOf {A} (x : result A * St * list effect) : result A :=
  fst (fst x).

Definition finalState {A} (x : result A * St * list effect) : St :=
  snd (fst x).

Definition finalSession {A} (x : result A * St * list effect) : Session :=
  session (finalState x).

Definition traceOf {A} (x : result A * St * list effect) : list effect :=
  snd x.

(** The names of the tools dispatched, in order. *)
Fixpoint toolRuns (tr : list effect) : list jsstring :=
  match tr with
  | [] => []
  | ELog (LogToolCall name) :: tr' => name :: toolRuns tr'
  | _ :: tr' => toolRuns tr'
  end.

(** The entries a web search leaves in the history: its marker and the
    prompt that carries the results. *)
Definition isSearchEntry (t : turn) : bool :=
  match turnRole t with
  | System => true
  | Assistant => isPrefix (lit "[Searched for ") (turnContent t)
  | User => false
  end.

(** The history a cycle starts its first generation with. *)
Definition historyWith (transcript : jsstring) (s : Session) : list turn :=
  conversationHistory (truncateHistory (push (mkTurn User transcript) s)).

Definition firstRequest (W : World) (transcript : jsstring) (s : Session)
  : list turn :=
  mkTurn System (SYSTEM_PROMPT W) :: historyWith transcript s.

(* ================================================================== *)
(** ** Events that arrive during a cycle *)

(** The event loop of the process: while the [n]-th request is pending
    the events [events n] of the transcription stream arrive and their
    handlers run; [inner] is the event loop of those handlers' own
    requests. *)
Definition arriving (W : World) (inner : EventLoop)
           (events : nat -> list event) : EventLoop :=
  fun n st =>
    let '(_, st', t) := onMessages W (loop := inner) (events n) st in
    (st', t).

(** The events of the running handler itself, as opposed to the lines
    that the handlers of the stream events log and the capture they
    start. *)
Definition ownEvent (e : effect) : bool :=
  match e with
  | ELog LogSessionCreated | ELog LogSessionConfigured
  | ELog LogSpeechDetected | ELog LogSpeechEnded | ELog LogEventError
  | ELog (LogUser _) | ELog LogStillProcessing | EStartCapture => false
  | _ => true
  end.

(** An event loop whose handlers, finding [isProcessingResponse] set,
    leave the state as it is and add nothing but their own lines. *)
Definition defers (L : EventLoop) : Prop :=
  forall n st,
    isProcessingResponse (session st) = true ->
    fst (L n st) = st /\ filter ownEvent (snd (L n st)) = [].

(** [m], run with the flag set, does what [m0] does, apart from the
    lines of the other handlers, and keeps the flag set. *)
Definition sim {A} (m m0 : M A) : Prop :=
  forall st,
    isProcessingResponse (session st) = true ->
    resultOf (m st) = resultOf (m0 st)
    /\ finalState (m st) = finalState (m0 st)
    /\ filter ownEvent (traceOf (m st)) = traceOf (m0 st)
    /\ isProcessingResponse (finalSession (m st)) = true.

(** ** Postconditions of runs *)

(** A postcondition speaks of the result, the final state and the trace
    of a run; [wp m Q st] says that the run of [m] from [st] satisfies
    [Q]. *)
Definition post (A : Type) : Type := result A -> St -> list effect -> Prop.

Definition wp {A} (m : M A) (Q : post A) (st : St) : Prop :=
  Q (resultOf (m st)) (finalState (m st)) (traceOf (m st)).

(** The last code unit of [t], or [prev] when [t] is empty. *)
Definition lastOr (prev : option code) (t : jsstring) : option code :=
  match rev t with
  | c :: _ => Some c
  | [] => prev
  end.

(** The events of one call of [speakElevenLabs] made while unmuted. *)
Definition spoken (W : World) (st : St) (text : jsstring) : list effect :=
  match elevenlabs W (requests st) (expandAbbreviations text) with
  | Resolved _ => [ESpeak (expandAbbreviations text)]
  | Rejected _ => [ESpeakFailed (expandAbbreviations text)]
  end.

(** The acknowledgements spoken by the tool executor. *)
Definition pauseAck : jsstring :=
  lit "I'll stop listening now. Say my name when you want me back.".
Definition resumeAck : jsstring :=
  lit "I'm listening again. How can I help?".
Definition leaveAck : jsstring := lit "Okay, signing off!".

(** Any tool call but [unmute_self]. *)
Definition notUnmute (tc : toolCall) : bool :=
  negb (jsstring_eqb (functionName tc) (lit "unmute_self")).

(** What one call of the tool executor guarantees. *)
Definition toolPost (tc : toolCall) (st : St) : post unit :=
  fun r st' tr =>
    isProcessingResponse (session st') = isProcessingResponse (session st)
    /\ toolRuns tr = [functionName tc]
    /\ (exists added,
           conversationHistory (session st')
           = conversationHistory (session st) ++ added
           /\ List.length added <= 3
           /\ (isMuted (session st) = true ->
               forallb isSearchEntry added = true))
    /\ (isMuted (session st) = true ->
        jsstring_eqb (functionName tc) (lit "unmute_self") = false ->
        r = Ok tt /\ isMuted (session st') = true
        /\ existsb isSpeech tr = false).

(** What the [try] block of a cycle guarantees once the generation has
    answered with [m]. *)
Definition cyclePost (st : St) (transcript : jsstring) (m : message)
  : post unit :=
  fun r st' tr =>
    List.length (conversationHistory (session st'))
    <= List.length (historyWith transcript (session st))
       + 3 * List.length (tool_calls m) + 1
    /\ (isMuted (session st) = true ->
        forallb notUnmute (tool_calls m) = true ->
        r = Ok tt /\ isMuted (session st') = true
        /\ existsb isSpeech tr = false
        /\ toolRuns tr = map functionName (tool_calls m)
        /\ exists added,
            conversationHistory (session st')
            = historyWith transcript (session st) ++ added
            /\ forallb isSearchEntry added = true).

(** What the [try] block of a cycle guarantees. *)
Definition utterancePost (W : World) (st : St) (transcript : jsstring)
  : post unit :=
  fun r st' tr =>
    isProcessingResponse (session st') = isProcessingResponse (session st)
    /\ (exists rest,
           tr = EGenerate (firstRequest W transcript (session st)) :: rest)
    /\ match completions W (requests st)
               (firstRequest W transcript (session st)) with
       | Rejected e =>
           r = Throw e
           /\ st' = mkSt (truncateHistory
                            (push (mkTurn User transcript) (session st)))
                         (S (requests st))
           /\ tr = [EGenerate (firstRequest W transcript (session st))]
       | Resolved m => cyclePost st transcript m r st' tr
       end.

(** The run of one cycle once the flag is set: the [try] and [catch] of
    [handleUserSpeech]. *)
Definition cycleRun (W : World) (transcript : jsstring) (st : St)
  : result unit * St * list effect :=
  tryCatch (processUtterance W transcript)
           (fun err => log (LogResponseError err))
           (mkSt (set_processing true (session st)) (requests st)).

(** What a cycle guarantees once its exceptions have been caught. *)
Definition cycleOutcome (W : World) (st : St) (transcript : jsstring)
  : post unit :=
  fun r st' tr =>
    r = Ok tt
    /\ isProcessingResponse (session st') = true
    /\ (exists rest,
           tr = EGenerate (firstRequest W transcript (session st)) :: rest)
    /\ match completions W (requests st)
               (firstRequest W transcript (session st)) with
       | Rejected e =>
           st' = mkSt (truncateHistory
                         (push (mkTurn User transcript)
                               (set_processing true (session st))))
                      (S (requests st))
           /\ tr = [EGenerate (firstRequest W transcript (session st));
                    ELog (LogResponseError e)]
       | Resolved m =>
           List.length (conversationHistory (session st'))
           <= List.length (historyWith transcript (session st))
              + 3 * List.length (tool_calls m) + 1
           /\ (isMuted (session st) = true ->
               forallb notUnmute (tool_calls m) = true ->
               isMuted (session st') = true
               /\ existsb isSpeech tr = false
               /\ toolRuns tr = map functionName (tool_calls m)
               /\ exists added,
                   conversationHistory (session st')
                   = historyWith transcript (session st) ++ added
                   /\ forallb isSearchEntry added = true)
       end.

(* ================================================================== *)
(** ** Sessions and services used as examples *)

Definition quietWorld : World :=
  mkWorld true (lit "persona")
          (fun _ _ => Resolved (mkMessage None []))
          (fun _ _ => Resolved tt)
          (fun _ _ _ => Resolved []).

Definition failingSpeech : World :=
  mkWorld true (lit "persona")
          (fun _ _ => Resolved (mkMessage None []))
          (fun _ _ => Rejected (lit "ElevenLabs error 500"))
          (fun _ _ _ => Resolved []).

Definition failingGeneration : World :=
  mkWorld true (lit "persona")
          (fun _ _ => Rejected (lit "No response from API"))
          (fun _ _ => Resolved tt)
          (fun _ _ _ => Resolved []).

Definition replying (text : string) (calls : list toolCall) : World :=
  mkWorld true (lit "persona")
          (fun _ _ => Resolved (mkMessage (Some (lit text)) calls))
          (fun _ _ => Resolved tt)
          (fun _ _ _ => Resolved []).

Definition mutedSession : Session := mkSession [] false true false.

Definition fullSession : Session :=
  mkSession (repeat (mkTurn User (lit "earlier")) 20) false false false.

Definition page (n : string) : rawResult :=
  mkRaw (Some (lit n)) (Some (lit "summary")) None (Some (lit "https://example.org")).

Definition sevenPages : list rawResult :=
  [page "1"; page "2"; page "3"; page "4"; page "5"; page "6"; page "7"].

Definition generousSearch : World :=
  mkWorld true (lit "persona")
          (fun _ _ => Resolved (mkMessage None []))
          (fun _ _ => Resolved tt)
          (fun _ _ _ => Resolved sevenPages).

(** The first answer asks for a search; every later request to the model
    fails. *)
Definition failingSummary : World :=
  mkWorld true (lit "persona")
          (fun n _ =>
             match n with
             | 0 => Resolved
                      (mkMessage None
                         [named "web_search"
                            (ArgsObject (Some (lit "cafes")) None)])
             | _ => Rejected (lit "No response from API")
             end)
          (fun _ _ => Resolved tt)
          (fun _ _ _ => Resolved sevenPages).

(** The answer asks to leave while the synthesis is out of order. *)
Definition failingAcknowledgement : World :=
  mkWorld true (lit "persona")
          (fun _ _ =>
             Resolved (mkMessage None [named "leave_meeting" ArgsAbsent]))
          (fun _ _ => Rejected (lit "ElevenLabs error 500"))
          (fun _ _ _ => Resolved []).

(** A second utterance is transcribed while the first request is
    pending. *)
Definition secondUtterance (n : nat) : list event :=
  match n with
  | 0 => [TranscriptionCompleted (Some (lit "are you there"))]
  | _ => []
  end.

(* ================================================================== *)
(** ** Further observations *)

(** The transcript holds a code unit that is not white space. *)
Definition heard (transcript : option jsstring) : bool :=
  truthy transcript && truthy (option_map trim transcript).

(** The events that touch neither the session nor a service. *)
Definition isHousekeeping (e : effect) : bool :=
  match e with
  | ELog LogSessionCreated | ELog LogSessionConfigured
  | ELog LogEventError | EStartCapture => true
  | _ => false
  end.

(** The call carries no usable [query]. *)
Definition noQuery (a : toolArgs) : bool :=
  match a with
  | ArgsAbsent => true
  | ArgsInvalid _ => false
  | ArgsObject q _ => negb (truthy q)
  end.

(** What [if (!isMuted) await speakElevenLabs(text)] leaves in the trace. *)
Definition apology (W : World) (st : St) (text : jsstring) : list effect :=
  if isMuted (session st) then [] else spoken W st text.

(** The same inside the [try] block of the [web_search] case: a synthesis
    that fails there is caught, logged as a search error and followed by
    the apology of the [catch] block. *)
Definition guardedApology (W : World) (st : St) (text : jsstring)
  : list effect :=
  if isMuted (session st) then []
  else match elevenlabs W (requests st) (expandAbbreviations text) with
       | Resolved _ => [ESpeak (expandAbbreviations text)]
       | Rejected e =>
           [ESpeakFailed (expandAbbreviations text); ELog (LogSearchError e)]
             ++ spoken W (mkSt (session st) (S (requests st)))
                  (lit "Sorry, the search failed.")
       end.

Definition notConfigured : jsstring := lit "Web search isn't configured.".
Definition searchFailed : jsstring := lit "Sorry, the search failed.".
Definition noResults : jsstring := lit "I couldn't find any results for that.".

(** The events of a reply [text] given in the state [st]: the line of the
    log and the synthesis, whose failure is caught and logged by
    [handleUserSpeech]. *)
Definition replyEvents (W : World) (st : St) (text : jsstring) : list effect :=
  ELog (LogClaw text)
    :: match elevenlabs W (requests st) (expandAbbreviations text) with
       | Resolved _ => [ESpeak (expandAbbreviations text)]
       | Rejected e =>
           [ESpeakFailed (expandAbbreviations text);
            ELog (LogResponseError e)]
       end.

(** *** Tables of abbreviations *)

(** No expansion of the table is itself a token. *)
Definition stableTable (tbl : list (jsstring * jsstring)) : bool :=
  forallb (fun e => match findToken tbl (snd e) with
                    | None => true
                    | Some _ => false
                    end) tbl.

(** No expansion is shorter than its token. *)
Definition growingTable (tbl : list (jsstring * jsstring)) : bool :=
  forallb (fun e => List.length (fst e) <=? List.length (snd e)) tbl.

(** [c] is the first code unit of a token of [tbl]. *)
Definition initialIn (tbl : list (jsstring * jsstring)) (c : code) : bool :=
  existsb (fun e => match fst e with
                    | t :: _ => N.eqb t c
                    | [] => false
                    end) tbl.

(** One of S, A, B, D, R, L, C and P. *)
Definition tokenInitial (c : code) : bool := initialIn abbreviationTable c.

Definition notWordChar (c : code) : bool := negb (isWordChar c).

Definition unconfigured : World :=
  mkWorld false (lit "persona")
          (fun _ _ => Resolved (mkMessage None []))
          (fun _ _ => Resolved tt)
          (fun _ _ _ => Resolved []).

Definition failingSearch : World :=
  mkWorld true (lit "persona")
          (fun _ _ => Resolved (mkMessage None []))
          (fun _ _ => Resolved tt)
          (fun _ _ _ => Rejected (lit "rate limited")).

(* ================================================================== *)
(** ** Pending searches

    [pendingSearches] is a [Map] from search identifiers to the
    [resolve], [reject] and timer of a waiting promise.  Promises and
    timers are numbered in the order of their creation; a timer that was
    cleared or has fired is no longer among the active ones. *)

Definition promiseId := nat.
Definition timerId := nat.

Record pendingSearch : Type := mkPending {
  pendingPromise : promiseId;      (* whose [resolve] and [reject] *)
  pendingTimeout : timerId
}.

(** An active timer of [waitForSearchResults]; its callback has captured
    [searchId] and the [reject] of its promise. *)
Record timer : Type := mkTimer {
  timerOf : timerId;
  timerSearch : jsstring;
  timerPromise : promiseId;
  timerDelay : Z
}.

Record Searches : Type := mkSearches {
  pendingSearches : list (jsstring * pendingSearch);
  timers : list timer;
  promisesCreated : nat;
  timersCreated : nat
}.

Definition noSearches : Searches := mkSearches [] [] 0 0.

(** [Map.prototype.get], [set] and [delete]. *)
Fixpoint mapGet {V} (k : jsstring) (m : list (jsstring * V)) : option V :=
  match m with
  | [] => None
  | (k', v) :: m' => if jsstring_eqb k' k then Some v else mapGet k m'
  end.

Fixpoint mapSet {V} (k : jsstring) (v : V) (m : list (jsstring * V))
  : list (jsstring * V) :=
  match m with
  | [] => [(k, v)]
  | (k', v') :: m' =>
      if jsstring_eqb k' k then (k', v) :: m' else (k', v') :: mapSet k v m'
  end.

Definition mapDelete {V} (k : jsstring) (m : list (jsstring * V))
  : list (jsstring * V) :=
  filter (fun e => negb (jsstring_eqb (fst e) k)) m.

(** [clearTimeout], and the removal of a timer that fires. *)
Definition clearTimer (t : timerId) (l : list timer) : list timer :=
  filter (fun tm => negb (Nat.eqb (timerOf tm) t)) l.

Definition findTimer (t : timerId) (l : list timer) : option timer :=
  find (fun tm => Nat.eqb (timerOf tm) t) l.

(** What happens to the promises. *)
Inductive settlement : Type :=
| SResolve (p : promiseId) (results : list rawResult)
| SReject (p : promiseId) (message : jsstring)
| SReceived (id : jsstring).          (* the line of the log *)

(** A line of standard input: text that [JSON.parse] or the property
    reads reject, or an object with its three properties.  The keys of
    the map are strings, so [id] is [None] also for an identifier that is
    not a string, which finds no entry; [results] is [None] when the
    property is absent or falsy, and a list otherwise. *)
Inductive stdinLine : Type :=
| NotJson
| JsonLine (type : option jsstring) (id : option jsstring)
           (results : option (list rawResult)).

(** [waitForSearchResults(searchId, timeoutMs)]: the promise returned and
    the new state. *)
Definition waitForSearchResults (searchId : jsstring) (timeoutMs : Z)
           (s : Searches) : promiseId * Searches :=
  let p := promisesCreated s in
  let t := timersCreated s in
  (p, mkSearches
        (mapSet searchId (mkPending p t) (pendingSearches s))
        (timers s ++ [mkTimer t searchId p timeoutMs])
        (S p) (S t)).

(** The callback of the timer [t]. *)
Definition onTimeout (t : timerId) (s : Searches)
  : Searches * list settlement :=
  match findTimer t (timers s) with
  | Some tm =>
      (mkSearches (mapDelete (timerSearch tm) (pendingSearches s))
                  (clearTimer t (timers s))
                  (promisesCreated s) (timersCreated s),
       [SReject (timerPromise tm) (lit "Search timeout")])
  | None => (s, [])
  end.

(** [rl.on('line', ...)] *)
Definition onLine (line : stdinLine) (s : Searches)
  : Searches * list settlement :=
  match line with
  | NotJson => (s, [])
  | JsonLine type id results =>
      match type, id with
      | Some ty, Some (c :: i) =>
          if jsstring_eqb ty (lit "search_results") then
            match mapGet (c :: i) (pendingSearches s) with
            | Some pending =>
                (mkSearches (mapDelete (c :: i) (pendingSearches s))
                            (clearTimer (pendingTimeout pending) (timers s))
                            (promisesCreated s) (timersCreated s),
                 [SResolve (pendingPromise pending)
                           (match results with
                            | Some r => r
                            | None => []
                            end);
                  SReceived (c :: i)])
            | None => (s, [])
            end
          else (s, [])
      | _, _ => (s, [])
      end
  end.

Inductive searchEvent : Type :=
| Wait (searchId : jsstring) (timeoutMs : Z)
| Line (line : stdinLine)
| Fire (t : timerId).

Definition searchStep (ev : searchEvent) (s : Searches)
  : Searches * list settlement :=
  match ev with
  | Wait k d => (snd (waitForSearchResults k d s), [])
  | Line l => onLine l s
  | Fire t => onTimeout t s
  end.

Fixpoint searchRun (evs : list searchEvent) (s : Searches)
  : Searches * list settlement :=
  match evs with
  | [] => (s, [])
  | ev :: evs' =>
      let '(s1, t1) := searchStep ev s in
      let '(s2, t2) := searchRun evs' s1 in
      (s2, t1 ++ t2)
  end.

(** The promises settled, in order. *)
Fixpoint settled (l : list settlement) : list promiseId :=
  match l with
  | [] => []
  | SResolve p _ :: l' => p :: settled l'
  | SReject p _ :: l' => p :: settled l'
  | SReceived _ :: l' => settled l'
  end.

(** The invariant of the pending searches, with the promises settled so
    far. *)
Definition searchesInv (s : Searches) (done : list promiseId) : Prop :=
  NoDup (map fst (pendingSearches s))
  /\ NoDup (map timerPromise (timers s))
  /\ NoDup (map timerOf (timers s))
  /\ (forall k e, In (k, e) (pendingSearches s) ->
        exists d, In (mkTimer (pendingTimeout e) k (pendingPromise e) d)
                     (timers s))
  /\ (forall tm, In tm (timers s) ->
        ~ In (timerPromise tm) done
        /\ timerPromise tm < promisesCreated s
        /\ timerOf tm < timersCreated s)
  /\ NoDup done
  /\ (forall p, In p done -> p < promisesCreated s).

(* ================================================================== *)
(** * Properties *)

(** ** Strings and character classes *)

Lemma jsstring_eqb_eq (a b : jsstring) : jsstring_eqb a b = true <-> a = b.
Proof.
  revert b; induction a as [|c a IH]; intros [|d b]; simpl;
    try (split; [discriminate | congruence]).
  - tauto.
  - rewrite andb_true_iff, N.eqb_eq, IH. split.
    + intros [-> ->]; reflexivity.
    + intros H; injection H as -> ->; auto.
Qed.

Lemma jsstring_eqb_refl (a : jsstring) : jsstring_eqb a a = true.
Proof. apply jsstring_eqb_eq; reflexivity. Qed.

Lemma boundary_not_word (c : code) :
  isSpace c || isComma c = true -> isWordChar c = false.
Proof.
  unfold isSpace, isComma, isWordChar, between. intros H.
  repeat rewrite orb_true_iff in H. repeat rewrite andb_true_iff in H.
  repeat rewrite N.leb_le in H. repeat rewrite N.eqb_eq in H.
  repeat rewrite orb_false_iff. repeat rewrite andb_false_iff.
  repeat rewrite N.leb_gt. rewrite N.eqb_neq. lia.
Qed.

Lemma word_not_boundary (c : code) :
  isWordChar c = true -> isSpace c || isComma c = false.
Proof.
  intros H. destruct (isSpace c || isComma c) eqn:E; auto.
  apply boundary_not_word in E. congruence.
Qed.

Lemma dropSpaces_nil_iff (s : jsstring) :
  dropSpaces s = [] <-> forallb isSpace s = true.
Proof.
  induction s as [|c s IH]; simpl; [tauto|].
  destruct (isSpace c); simpl; [exact IH|]. split; discriminate.
Qed.

Lemma dropSpaces_head (s : jsstring) c t :
  dropSpaces s = c :: t -> isSpace c = false.
Proof.
  induction s as [|d s IH]; simpl; [discriminate|].
  destruct (isSpace d) eqn:D; auto.
  intros H; injection H as <- _; exact D.
Qed.

Lemma forallb_rev {A} (f : A -> bool) (l : list A) :
  forallb f (rev l) = forallb f l.
Proof.
  induction l as [|a l IH]; simpl; auto.
  rewrite forallb_app, IH. simpl. rewrite andb_true_r. apply andb_comm.
Qed.

(** Trimming leaves nothing exactly when every code unit is white space. *)
Lemma trim_nil_iff (s : jsstring) :
  trim s = [] <-> forallb isSpace s = true.
Proof.
  unfold trim. split.
  - intros H. apply (f_equal (@rev code)) in H.
    rewrite rev_involutive in H. simpl in H.
    apply dropSpaces_nil_iff in H. rewrite forallb_rev in H.
    apply dropSpaces_nil_iff.
    destruct (dropSpaces s) as [|c t] eqn:E; auto.
    apply dropSpaces_head in E. simpl in H. rewrite E in H. discriminate.
  - intros H. apply dropSpaces_nil_iff in H. rewrite H. reflexivity.
Qed.

(** ** The patterns of [expandAbbreviations] *)

Lemma lastOr_cons prev c t : lastOr prev (c :: t) = lastOr (Some c) t.
Proof.
  unfold lastOr. simpl. destruct (rev t) as [|d r] eqn:E; simpl; auto.
Qed.

(** The literal part of a pattern consumes exactly its text. *)
Lemma matchAtoms_chars (tok : jsstring) (tail : list atom) :
  forall prev s,
    matchAtoms (map AChar tok ++ tail) prev s =
    if isPrefix tok s
    then option_map (Nat.add (List.length tok))
           (matchAtoms tail (lastOr prev tok) (skipn (List.length tok) s))
    else None.
Proof.
  induction tok as [|c tok IH]; intros prev s.
  - simpl. unfold lastOr. simpl. destruct (matchAtoms tail prev s); reflexivity.
  - destruct s as [|d s]; [reflexivity|].
    cbn [map app matchAtoms isPrefix List.length skipn].
    destruct (N.eqb c d) eqn:E; [|reflexivity].
    apply N.eqb_eq in E; subst d. cbn [andb].
    rewrite IH, lastOr_cons.
    destruct (isPrefix tok s); [|reflexivity].
    destruct (matchAtoms tail _ _); reflexivity.
Qed.

Lemma isWord_lastOr prev c t :
  isWord (c :: t) = true -> isWordOpt (lastOr prev (c :: t)) = true.
Proof.
  unfold isWord, lastOr. intros H. rewrite <- forallb_rev in H.
  destruct (rev (c :: t)) as [|d r] eqn:E.
  - apply (f_equal (@List.length code)) in E. rewrite length_rev in E. discriminate.
  - simpl in H. apply andb_true_iff in H. apply H.
Qed.

Lemma look_not_word (s : jsstring) :
  lookSpaceCommaEnd s = true -> isWordOpt (hd_error s) = false.
Proof.
  destruct s as [|c s]; simpl; auto. apply boundary_not_word.
Qed.

(** A pattern of [expandAbbreviations] matches where no word character
    precedes and the token is followed by white space, a comma or the end
    of the input. *)
Lemma matchAtoms_abbrev (tok : jsstring) prev s :
  nonEmpty tok = true -> isWord tok = true ->
  matchAtoms (abbrevPattern tok) prev s =
  if negb (isWordOpt prev) && tokenAt tok s
  then Some (List.length tok) else None.
Proof.
  intros Hne Hw. destruct tok as [|c tok]; [discriminate|]. clear Hne.
  unfold abbrevPattern, tokenAt.
  cbn [matchAtoms].
  rewrite matchAtoms_chars.
  destruct (isPrefix (c :: tok) s) eqn:P.
  - assert (isWordOpt (hd_error s) = true) as Hs.
    { destruct s as [|d s]; [discriminate|]. simpl in P.
      apply andb_true_iff in P. destruct P as [P _].
      apply N.eqb_eq in P; subst d. simpl.
      unfold isWord in Hw. simpl in Hw. apply andb_true_iff in Hw. apply Hw. }
    rewrite Hs, xorb_true_r.
    destruct (isWordOpt prev); [reflexivity|]. cbn [negb andb].
    cbn [matchAtoms]. rewrite (isWord_lastOr prev _ _ Hw).
    destruct (lookSpaceCommaEnd (skipn (List.length (c :: tok)) s)) eqn:L.
    + rewrite (look_not_word _ L). cbn. rewrite Nat.add_0_r. reflexivity.
    + destruct (xorb true _); reflexivity.
  - rewrite andb_false_r. destruct (xorb _ _); reflexivity.
Qed.

Section OnePass.
Variables tok rep : jsstring.
Hypothesis tok_nonEmpty : nonEmpty tok = true.
Hypothesis tok_word : isWord tok = true.

(** One [replace] of the source is a pass with a table of one entry. *)
Lemma replaceFrom_expandWith :
  forall s skip prev,
    replaceFrom (abbrevPattern tok) rep skip prev s =
    expandWith [(tok, rep)] skip (isWordOpt prev) s.
Proof.
  induction s as [|c s IH]; intros skip prev.
  - cbn [replaceFrom expandWith].
    rewrite matchAtoms_abbrev by assumption.
    destruct tok; [discriminate|].
    unfold tokenAt. cbn. rewrite andb_false_r.
    destruct skip; reflexivity.
  - cbn [replaceFrom expandWith]. destruct skip as [|k].
    + rewrite matchAtoms_abbrev by assumption.
      cbn [lookupToken].
      destruct (isWordOpt prev); cbn [negb andb].
      * rewrite IH. reflexivity.
      * destruct (tokenAt tok (c :: s)).
        -- destruct tok as [|t tok']; [discriminate|].
           cbn [List.length pred]. rewrite IH. reflexivity.
        -- rewrite IH. reflexivity.
    + rewrite IH. reflexivity.
Qed.
End OnePass.

(** ** From positions to words *)

Section Words.
Variable tbl : list (jsstring * jsstring).
Hypothesis tbl_good : goodTable tbl = true.

Lemma findToken_nil : findToken tbl [] = None.
Proof.
  revert tbl_good. induction tbl as [|[t r] l IH]; simpl; auto.
  intros H. apply andb_true_iff in H. destruct H as [H Hl].
  destruct t; [discriminate|]. simpl. auto.
Qed.

Lemma findToken_word w r : findToken tbl w = Some r -> isWord r = true.
Proof.
  revert tbl_good. induction tbl as [|[t r'] l IH]; simpl; [discriminate|].
  intros H. apply andb_true_iff in H. destruct H as [H Hl].
  destruct (jsstring_eqb t w); auto.
  intros K; injection K as <-.
  apply andb_true_iff in H. apply H.
Qed.

Lemma substWord_nil next : substWord tbl [] next = [].
Proof.
  unfold substWord. rewrite findToken_nil. destruct (boundaryOpt next); auto.
Qed.

Lemma substWord_word w next :
  isWord w = true -> isWord (substWord tbl w next) = true.
Proof.
  intros H. unfold substWord. destruct (boundaryOpt next); auto.
  destruct (findToken tbl w) eqn:E; auto. eapply findToken_word; eauto.
Qed.
End Words.

(** On a whole word, followed by no word character, a token is found at
    the position exactly when it is the word and a boundary follows. *)
Lemma tokenAt_word (tok : jsstring) :
  isWord tok = true ->
  forall w rest,
    isWord w = true -> isWordOpt (hd_error rest) = false ->
    tokenAt tok (w ++ rest) = jsstring_eqb tok w && boundaryOpt (hd_error rest).
Proof.
  unfold tokenAt.
  induction tok as [|t tok IH]; intros Ht w rest Hw Hr.
  - destruct w as [|c w]; simpl.
    + destruct rest; reflexivity.
    + simpl in Hw. apply andb_true_iff in Hw.
      apply word_not_boundary. apply Hw.
  - simpl in Ht. apply andb_true_iff in Ht. destruct Ht as [Ht Htok].
    destruct w as [|c w].
    + simpl. destruct rest as [|d rest]; [reflexivity|].
      simpl in Hr. simpl. destruct (N.eqb t d) eqn:E; [|reflexivity].
      apply N.eqb_eq in E. congruence.
    + simpl in Hw. apply andb_true_iff in Hw. destruct Hw as [Hc Hw].
      cbn [app isPrefix jsstring_eqb List.length skipn].
      destruct (N.eqb t c); cbn [andb]; [|reflexivity].
      apply IH; assumption.
Qed.

Lemma findToken_fresh (tok : jsstring) (tbl : list (jsstring * jsstring)) w r :
  freshToken tok tbl = true ->
  findToken tbl w = Some r -> jsstring_eqb tok r = false.
Proof.
  induction tbl as [|[t r'] l IH]; simpl; [discriminate|].
  intros H. apply andb_true_iff in H. destruct H as [H Hl].
  destruct (jsstring_eqb t w); auto.
  intros K; injection K as <-. apply negb_true_iff in H. exact H.
Qed.

Lemma findToken_app (tbl : list (jsstring * jsstring)) e w :
  findToken (tbl ++ [e]) w =
  match findToken tbl w with
  | Some r => Some r
  | None => findToken [e] w
  end.
Proof.
  induction tbl as [|[t r] l IH]; simpl; auto.
  destruct (jsstring_eqb t w); auto.
Qed.

Section Passes.
Variable tbl : list (jsstring * jsstring).
Hypothesis tbl_good : goodTable tbl = true.

Lemma lookupToken_word :
  forall w rest,
    isWord w = true -> isWordOpt (hd_error rest) = false ->
    lookupToken tbl (w ++ rest) =
    if boundaryOpt (hd_error rest)
    then option_map (fun r => (w, r)) (findToken tbl w)
    else None.
Proof.
  intros w rest Hw Hr. revert tbl_good.
  induction tbl as [|[t r] l IH]; simpl.
  - destruct (boundaryOpt _); reflexivity.
  - intros H. apply andb_true_iff in H. destruct H as [H Hl].
    apply andb_true_iff in H. destruct H as [H _].
    apply andb_true_iff in H. destruct H as [_ Ht]. simpl in Ht.
    rewrite tokenAt_word by assumption.
    destruct (jsstring_eqb t w) eqn:E; cbn [andb].
    + apply jsstring_eqb_eq in E; subst t.
      destruct (boundaryOpt _); [reflexivity|]. rewrite IH by assumption.
      reflexivity.
    + apply IH; assumption.
Qed.

(** The units of a matched word are passed over. *)
Lemma expandWith_skip :
  forall u rest pw,
    expandWith tbl (List.length u) pw (u ++ rest) =
    expandWith tbl 0 (isWordOpt (lastOr (if pw then Some 65%N else None) u)) rest.
Proof.
  induction u as [|c u IH]; intros rest pw.
  - unfold lastOr. simpl. destruct pw; reflexivity.
  - cbn [List.length app expandWith]. rewrite IH, lastOr_cons.
    f_equal. unfold lastOr. destruct (rev u); simpl; auto.
    destruct (isWordChar c) eqn:E; simpl; auto.
Qed.

(** After a word character nothing matches until the word ends. *)
Lemma expandWith_inword :
  forall u rest,
    isWord u = true ->
    expandWith tbl 0 true (u ++ rest) = u ++ expandWith tbl 0 true rest.
Proof.
  induction u as [|c u IH]; intros rest Hu; [reflexivity|].
  simpl in Hu. apply andb_true_iff in Hu. destruct Hu as [Hc Hu].
  cbn [app expandWith]. rewrite Hc, IH by assumption. reflexivity.
Qed.

(** Where the input ends or no word character stands, the preceding
    unit does not matter. *)
Lemma expandWith_boundary :
  forall rest pw,
    isWordOpt (hd_error rest) = false ->
    expandWith tbl 0 pw rest = expandWith tbl 0 false rest.
Proof.
  intros [|d rest] pw Hd; [reflexivity|]. simpl in Hd.
  cbn [expandWith]. destruct pw; [|reflexivity].
  pose proof (lookupToken_word [] (d :: rest) eq_refl Hd) as L.
  simpl app in L. rewrite L, (@findToken_nil tbl tbl_good). simpl.
  destruct (isSpace d || isComma d); reflexivity.
Qed.

(** A whole word is replaced or copied as [substWord] says. *)
Lemma expandWith_word :
  forall w rest,
    isWord w = true -> isWordOpt (hd_error rest) = false ->
    expandWith tbl 0 false (w ++ rest) =
    substWord tbl w (hd_error rest) ++ expandWith tbl 0 false rest.
Proof.
  intros [|c u] rest Hw Hr.
  - rewrite (@substWord_nil tbl tbl_good). reflexivity.
  - pose proof (lookupToken_word (c :: u) rest Hw Hr) as L.
    cbn [app] in L. cbn [app expandWith]. rewrite L. unfold substWord.
    pose proof Hw as Hw'. simpl in Hw'. apply andb_true_iff in Hw'.
    destruct Hw' as [Hc Hu]. rewrite Hc.
    destruct (boundaryOpt (hd_error rest)); cbn [option_map].
    + destruct (findToken tbl (c :: u)) as [r|]; cbn [option_map].
      * cbn [List.length pred]. rewrite expandWith_skip.
        f_equal.
        replace (isWordOpt (lastOr (Some 65%N) u)) with true.
        { apply expandWith_boundary; assumption. }
        destruct u as [|d u']; [reflexivity|].
        symmetry. apply isWord_lastOr. exact Hu.
      * rewrite expandWith_inword by assumption.
        rewrite expandWith_boundary by assumption. reflexivity.
    + rewrite expandWith_inword by assumption.
      rewrite expandWith_boundary by assumption. reflexivity.
Qed.

Lemma expandWith_expandWords_acc :
  forall s acc,
    isWord acc = true ->
    expandWith tbl 0 false (rev acc ++ s) = expandWords tbl acc s.
Proof.
  induction s as [|c s IH]; intros acc Hacc.
  - rewrite (expandWith_word (rev acc) []); simpl; auto.
    + rewrite app_nil_r. reflexivity.
    + unfold isWord. rewrite forallb_rev. exact Hacc.
  - cbn [expandWords]. destruct (isWordChar c) eqn:Hc.
    + rewrite <- IH by (simpl; rewrite Hc; exact Hacc).
      simpl. rewrite <- app_assoc. reflexivity.
    + rewrite expandWith_word; simpl; auto.
      * rewrite Hc. f_equal. f_equal.
        destruct (lookupToken tbl (c :: s)) eqn:L.
        -- pose proof (lookupToken_word [] (c :: s) eq_refl Hc) as L'.
           simpl app in L'. rewrite L', (@findToken_nil tbl tbl_good) in L.
           simpl in L. destruct (isSpace c || isComma c); discriminate.
        -- f_equal. apply (IH []). reflexivity.
      * unfold isWord. rewrite forallb_rev. exact Hacc.
Qed.

(** The pass by positions is the pass by words. *)
Lemma expandWith_expandWords (s : jsstring) :
  expandWith tbl 0 false s = expandWords tbl [] s.
Proof. apply (expandWith_expandWords_acc s []). reflexivity. Qed.

Lemma expandWords_app_word (tbl' : list (jsstring * jsstring)) :
  forall w acc x,
    isWord w = true ->
    expandWords tbl' acc (w ++ x) = expandWords tbl' (rev w ++ acc) x.
Proof.
  induction w as [|c w IH]; intros acc x Hw; [reflexivity|].
  simpl in Hw. apply andb_true_iff in Hw. destruct Hw as [Hc Hw].
  cbn [app expandWords]. rewrite Hc, IH by assumption.
  simpl. rewrite <- app_assoc. reflexivity.
Qed.

Variable e : jsstring * jsstring.
Hypothesis e_fresh : freshToken (fst e) tbl = true.

Lemma substWord_compose w next :
  substWord [e] (substWord tbl w next) next = substWord (tbl ++ [e]) w next.
Proof.
  unfold substWord. destruct (boundaryOpt next); auto.
  rewrite findToken_app.
  destruct (findToken tbl w) as [r|] eqn:E; auto.
  pose proof (findToken_fresh _ _ _ e_fresh E) as F.
  destruct e as [t r']. simpl in F |- *. rewrite F. reflexivity.
Qed.

(** One more pass of the source adds one entry to the table. *)
Lemma expandWords_compose :
  forall s acc,
    isWord acc = true ->
    expandWords [e] [] (expandWords tbl acc s) =
    expandWords (tbl ++ [e]) acc s.
Proof.
  induction s as [|c s IH]; intros acc Hacc.
  - cbn [expandWords].
    rewrite <- (app_nil_r (substWord tbl (rev acc) None)).
    rewrite expandWords_app_word.
    + cbn [expandWords]. rewrite app_nil_r, rev_involutive.
      apply substWord_compose.
    + apply substWord_word; auto.
      unfold isWord. rewrite forallb_rev. exact Hacc.
  - cbn [expandWords]. destruct (isWordChar c) eqn:Hc.
    + apply IH. simpl. rewrite Hc. exact Hacc.
    + rewrite expandWords_app_word.
      * cbn [expandWords]. rewrite Hc, app_nil_r, rev_involutive.
        rewrite substWord_compose, (IH []); reflexivity.
      * apply substWord_word; auto.
        unfold isWord. rewrite forallb_rev. exact Hacc.
Qed.
End Passes.

(** ** [expandAbbreviations] *)

Lemma replaceAbbrev_words (tok rep : string) (text : jsstring) :
  goodTable [(lit tok, lit rep)] = true ->
  replaceAbbrev tok rep text = expandWords [(lit tok, lit rep)] [] text.
Proof.
  intros G. unfold replaceAbbrev.
  pose proof G as G'. simpl in G'. rewrite andb_true_r in G'.
  apply andb_true_iff in G'. destruct G' as [G' _].
  apply andb_true_iff in G'. destruct G' as [Hne Hw].
  rewrite replaceFrom_expandWith by assumption.
  apply expandWith_expandWords. exact G.
Qed.

(** Merge the innermost pass over [text] with the pass around it. *)
Ltac add_pass text :=
  match goal with
  | |- context [expandWords [?e] [] (expandWords ?tbl [] text)] =>
      rewrite (@expandWords_compose tbl eq_refl e eq_refl text [] eq_refl);
      cbn [app]
  end.

(** The eight replacements of the source, one after the other, are one
    pass with the table. *)
Lemma expandAbbreviations_expandSpec (text : jsstring) :
  expandAbbreviations text = expandSpec text.
Proof.
  unfold expandAbbreviations, expandSpec.
  rewrite !replaceAbbrev_words by reflexivity.
  do 7 (add_pass text).
  symmetry. apply expandWith_expandWords. reflexivity.
Qed.

(** C8. For every input, [expandAbbreviations] is the single pass that
    replaces St, Ave, Blvd, Dr, Rd, Ln, Ct and Pl (in this spelling) by
    Street, Avenue, Boulevard, Drive, Road, Lane, Court and Place exactly
    where the token stands at a word boundary and is followed by white
    space, a comma or the end of the input, and copies every other code
    unit; "Stuart" is untouched, "123 Main St" becomes "123 Main Street"
    and "St. Louis" is left as it is; a token before a comma is replaced
    and tokens in another case are not. *)
Theorem expandAbbreviations_correct :
  (forall text, expandAbbreviations text = expandSpec text)
  /\ expandAbbreviations (lit "Stuart") = lit "Stuart"
  /\ expandAbbreviations (lit "123 Main St") = lit "123 Main Street"
  /\ expandAbbreviations (lit "St. Louis") = lit "St. Louis"
  /\ expandAbbreviations (lit "12 Elm St, 3 Oak Ave") =
     lit "12 Elm Street, 3 Oak Avenue"
  /\ expandAbbreviations (lit "main st and AVE") = lit "main st and AVE".
Proof.
  split; [exact expandAbbreviations_expandSpec|].
  repeat split; vm_compute; reflexivity.
Qed.

(* ================================================================== *)
Unset Implicit Arguments.

(** ** Weakest preconditions for the monad *)

Lemma wp_ret {A} (a : A) (Q : post A) st : Q (Ok a) st [] -> wp (ret a) Q st.
Proof. exact (fun H => H). Qed.

Lemma wp_throw {A} (e : error) (Q : post A) st :
  Q (Throw e) st [] -> wp (throw e) Q st.
Proof. exact (fun H => H). Qed.

Lemma wp_bind {A B} (m : M A) (f : A -> M B) (Q : post B) st :
  wp m (fun r s1 t1 =>
          match r with
          | Ok a => wp (f a) (fun r' s2 t2 => Q r' s2 (t1 ++ t2)) s1
          | Throw e => Q (Throw e) s1 t1
          end) st ->
  wp (bind m f) Q st.
Proof.
  unfold wp, bind, resultOf, finalState, traceOf.
  destruct (m st) as [[[a|e] s1] t1]; simpl; auto.
  destruct (f a s1) as [[r s2] t2]; simpl; auto.
Qed.

Lemma wp_tryCatch {A} (m : M A) (h : error -> M A) (Q : post A) st :
  wp m (fun r s1 t1 =>
          match r with
          | Ok a => Q (Ok a) s1 t1
          | Throw e => wp (h e) (fun r' s2 t2 => Q r' s2 (t1 ++ t2)) s1
          end) st ->
  wp (tryCatch m h) Q st.
Proof.
  unfold wp, tryCatch, resultOf, finalState, traceOf.
  destruct (m st) as [[[a|e] s1] t1]; simpl; auto.
  destruct (h e s1) as [[r s2] t2]; simpl; auto.
Qed.

Lemma wp_tryFinally {A} (m : M A) (f : M unit) (Q : post A) st :
  wp m (fun r s1 t1 =>
          wp f (fun r' s2 t2 =>
                  match r' with
                  | Ok _ => Q r s2 (t1 ++ t2)
                  | Throw e => Q (Throw e) s2 (t1 ++ t2)
                  end) s1) st ->
  wp (tryFinally m f) Q st.
Proof.
  unfold wp, tryFinally, resultOf, finalState, traceOf.
  destruct (m st) as [[r s1] t1]; simpl.
  destruct (f s1) as [[[u|e] s2] t2]; simpl; auto.
Qed.

Lemma wp_emit (e : effect) (Q : post unit) st :
  Q (Ok tt) st [e] -> wp (emit e) Q st.
Proof. exact (fun H => H). Qed.

Lemma wp_log (l : logline) (Q : post unit) st :
  Q (Ok tt) st [ELog l] -> wp (log l) Q st.
Proof. exact (fun H => H). Qed.

Lemma wp_getSession (Q : post Session) st :
  Q (Ok (session st)) st [] -> wp getSession Q st.
Proof. exact (fun H => H). Qed.

Lemma wp_modify (f : Session -> Session) (Q : post unit) st :
  Q (Ok tt) (mkSt (f (session st)) (requests st)) [] -> wp (modify f) Q st.
Proof. exact (fun H => H). Qed.

Lemma wp_nextRequest (Q : post nat) st :
  Q (Ok (requests st)) (mkSt (session st) (S (requests st))) [] ->
  wp nextRequest Q st.
Proof. exact (fun H => H). Qed.

Lemma wp_await {A} (o : outcome A) (Q : post A) st :
  match o with
  | Resolved a => Q (Ok a) st []
  | Rejected e => Q (Throw e) st []
  end ->
  wp (await o) Q st.
Proof. destruct o; exact (fun H => H). Qed.

Lemma wp_when (b : bool) (m : M unit) (Q : post unit) st :
  (if b then wp m Q st else Q (Ok tt) st []) -> wp (when b m) Q st.
Proof. destruct b; exact (fun H => H). Qed.

Lemma wp_mono {A} (m : M A) (Q Q' : post A) st :
  wp m Q st -> (forall r s t, Q r s t -> Q' r s t) -> wp m Q' st.
Proof. unfold wp. auto. Qed.

Ltac wp_prim :=
  lazymatch goal with
  | |- wp (bind _ _) _ _ => apply wp_bind
  | |- wp (ret _) _ _ => apply wp_ret
  | |- wp (throw _) _ _ => apply wp_throw
  | |- wp (emit _) _ _ => apply wp_emit
  | |- wp (log _) _ _ => apply wp_log
  | |- wp getSession _ _ => apply wp_getSession
  | |- wp (modify _) _ _ => apply wp_modify
  | |- wp nextRequest _ _ => apply wp_nextRequest
  | |- wp (await _) _ _ => apply wp_await
  | |- wp (tryCatch _ _) _ _ => apply wp_tryCatch
  | |- wp (tryFinally _ _) _ _ => apply wp_tryFinally
  | |- wp (when _ _) _ _ => apply wp_when
  end.

Ltac wp_unfold :=
  unfold wp, resultOf, finalState, traceOf, bind, ret, throw, emit, log,
    getSession, modify, nextRequest, await, when; simpl.

(** [speakElevenLabs] *)
Lemma wp_speak W text (Q : post unit) st :
  (if isMuted (session st)
   then Q (Ok tt) st [ELog LogMutedSkippingTTS]
   else match elevenlabs W (requests st) (expandAbbreviations text) with
        | Resolved _ =>
            Q (Ok tt) (mkSt (session st) (S (requests st)))
              [ESpeak (expandAbbreviations text)]
        | Rejected e =>
            Q (Throw e) (mkSt (session st) (S (requests st)))
              [ESpeakFailed (expandAbbreviations text)]
        end) ->
  wp (speakElevenLabs W text) Q st.
Proof.
  unfold speakElevenLabs. wp_unfold.
  destruct (isMuted (session st)); simpl; auto.
  destruct (elevenlabs W _ _); simpl; auto.
Qed.

Lemma wp_speakUnlessMuted W text (Q : post unit) st :
  (if isMuted (session st)
   then Q (Ok tt) st []
   else match elevenlabs W (requests st) (expandAbbreviations text) with
        | Resolved _ =>
            Q (Ok tt) (mkSt (session st) (S (requests st)))
              [ESpeak (expandAbbreviations text)]
        | Rejected e =>
            Q (Throw e) (mkSt (session st) (S (requests st)))
              [ESpeakFailed (expandAbbreviations text)]
        end) ->
  wp (speakUnlessMuted W text) Q st.
Proof.
  intros H. unfold speakUnlessMuted.
  apply wp_bind, wp_getSession, wp_when.
  destruct (isMuted (session st)) eqn:E; simpl; [exact H|].
  apply wp_speak. rewrite E.
  destruct (elevenlabs W _ _); exact H.
Qed.

Lemma wp_generate W (Q : post message) st :
  (let messages :=
     mkTurn System (SYSTEM_PROMPT W) :: conversationHistory (session st) in
   match completions W (requests st) messages with
   | Resolved m =>
       Q (Ok m) (mkSt (session st) (S (requests st))) [EGenerate messages]
   | Rejected e =>
       Q (Throw e) (mkSt (session st) (S (requests st))) [EGenerate messages]
   end) ->
  wp (generateResponse W) Q st.
Proof.
  unfold generateResponse. wp_unfold.
  destruct (completions W _ _); simpl; auto.
Qed.

Lemma wp_searchExa W query count (Q : post (list searchResult)) st :
  match exa W (requests st) query count with
  | Resolved rs =>
      Q (Ok (map normalizeResult (sliceTo count rs)))
        (mkSt (session st) (S (requests st))) [ESearch query count]
  | Rejected e =>
      Q (Throw e) (mkSt (session st) (S (requests st))) [ESearch query count]
  end ->
  wp (searchExa W query count) Q st.
Proof.
  unfold searchExa. wp_unfold.
  destruct (exa W _ _ _); simpl; auto.
Qed.

Lemma wp_intro {A} (m : M A) (Q : post A) st :
  wp m Q st -> Q (resultOf (m st)) (finalState (m st)) (traceOf (m st)).
Proof. exact (fun H => H). Qed.

(** ** The tool executor, one call *)

Arguments expandAbbreviations : simpl never.
Arguments lit : simpl never.
Arguments searchedMarker : simpl never.
Arguments searchResultsPrompt : simpl never.

Ltac st_simpl :=
  cbv beta iota zeta;
  cbn [session requests isMuted isPaused isProcessingResponse
       conversationHistory set_muted set_paused set_processing
       set_history push negb andb fst snd functionName functionArguments
       app].

(** Run a computation of the script symbolically, splitting on every
    test and on every answer of a service. *)
Ltac wp_go :=
  repeat (st_simpl;
          first
            [ wp_prim
            | lazymatch goal with
              | |- wp (speakUnlessMuted _ _) _ _ => apply wp_speakUnlessMuted
              | |- wp (speakElevenLabs _ _) _ _ => apply wp_speak
              | |- wp (generateResponse _) _ _ => apply wp_generate
              | |- wp (searchExa _ _ _) _ _ => apply wp_searchExa
              end
            | match goal with
              | |- wp (if ?b then _ else _) _ _ => destruct b eqn:?
              | |- wp (match ?x with _ => _ end) _ _ => destruct x eqn:?
              | |- if ?b then _ else _ => destruct b eqn:?
              | |- match ?x with _ => _ end => destruct x eqn:?
              end ]);
  st_simpl.

Lemma isSearchEntry_marker q :
  isSearchEntry (mkTurn Assistant (searchedMarker q)) = true.
Proof. reflexivity. Qed.

Ltac history_added :=
  first
    [ exists []; rewrite app_nil_r; repeat split; auto; simpl; lia
    | rewrite <- ?app_assoc; eexists; split; [reflexivity|];
      split; [simpl; lia|]; intros; try discriminate; reflexivity ].

Ltac tool_leaf :=
  unfold toolPost; simpl;
  split; [reflexivity|];
  split; [reflexivity|];
  split; [history_added|];
  intros; try discriminate; try congruence;
  repeat split; reflexivity.

Lemma handleToolCall_step W tc st :
  wp (handleToolCall W tc) (toolPost tc st) st.
Proof.
  destruct st as [[h p mu pa] n]. destruct tc as [name args].
  unfold handleToolCall, webSearch, parseArguments.
  destruct mu.
  all: wp_go.
  all: try tool_leaf.
Qed.

Ltac eval_names :=
  repeat match goal with
  | |- context [jsstring_eqb (lit ?a) (lit ?b)] =>
      let v := eval vm_compute in (jsstring_eqb (lit a) (lit b)) in
      replace (jsstring_eqb (lit a) (lit b)) with v
        by (vm_compute; reflexivity);
      cbv iota
  end.

Lemma wp_eq {A} (m : M A) st r s t :
  wp m (fun r' s' t' => r' = r /\ s' = s /\ t' = t) st -> m st = (r, s, t).
Proof.
  unfold wp, resultOf, finalState, traceOf.
  destruct (m st) as [[r' s'] t']. simpl. intros (-> & -> & ->). reflexivity.
Qed.

(** State a goal about the run [m st] as a weakest precondition. *)
Ltac by_wp m st :=
  unfold finalSession;
  pattern (resultOf (m st)), (finalState (m st)), (traceOf (m st));
  apply (@wp_intro _ m _ st).

Ltac dispatch :=
  unfold handleToolCall, named; cbn [functionName functionArguments];
  eval_names.

(** ** The tool executor, a list of calls *)

Lemma toolRuns_app (a b : list effect) :
  toolRuns (a ++ b) = toolRuns a ++ toolRuns b.
Proof.
  induction a as [|e a IH]; simpl; auto.
  destruct e as [[]| | | | | | |]; simpl; rewrite ?IH; reflexivity.
Qed.

Lemma forEach_tools_general W :
  forall tcs st,
    wp (forEach (handleToolCall W) tcs)
       (fun _ st' _ =>
          isProcessingResponse (session st') = isProcessingResponse (session st)
          /\ exists added,
              conversationHistory (session st')
              = conversationHistory (session st) ++ added
              /\ List.length added <= 3 * List.length tcs) st.
Proof.
  induction tcs as [|tc tcs IH]; intros st.
  - apply wp_ret. split; auto. exists []. rewrite app_nil_r. simpl. auto.
  - cbn [forEach]. apply wp_bind.
    eapply wp_mono; [apply handleToolCall_step|].
    intros r s1 t1 (Hp & _ & (a1 & Hh & Hl & _) & _).
    destruct r as [[]|e].
    + eapply wp_mono; [apply IH|]. cbv beta.
      intros _ s2 _ (Hp2 & a2 & Hh2 & Hl2). split; [congruence|].
      exists (a1 ++ a2). rewrite Hh2, Hh, app_assoc. split; auto.
      rewrite length_app. simpl. lia.
    + split; auto. exists a1. split; auto. simpl. lia.
Qed.

Lemma forEach_tools_muted W :
  forall tcs st,
    isMuted (session st) = true ->
    forallb notUnmute tcs = true ->
    wp (forEach (handleToolCall W) tcs)
       (fun r st' tr =>
          r = Ok tt /\ isMuted (session st') = true
          /\ existsb isSpeech tr = false
          /\ toolRuns tr = map functionName tcs
          /\ exists added,
              conversationHistory (session st')
              = conversationHistory (session st) ++ added
              /\ forallb isSearchEntry added = true) st.
Proof.
  induction tcs as [|tc tcs IH]; intros st Hm Hn.
  - apply wp_ret. repeat split; auto. exists []. rewrite app_nil_r. auto.
  - simpl in Hn. apply andb_true_iff in Hn. destruct Hn as [Hn Hns].
    apply negb_true_iff in Hn.
    cbn [forEach]. apply wp_bind.
    eapply wp_mono; [apply handleToolCall_step|].
    intros r s1 t1 (_ & Hruns & (a1 & Hh & _ & Hs) & Hq).
    destruct (Hq Hm Hn) as (-> & Hm1 & Hsp).
    eapply wp_mono; [apply (IH s1 Hm1 Hns)|]. cbv beta.
    intros r s2 t2 (-> & Hm2 & Hsp2 & Hruns2 & a2 & Hh2 & Hs2).
    repeat split; auto.
    + rewrite existsb_app, Hsp, Hsp2. reflexivity.
    + rewrite toolRuns_app, Hruns, Hruns2. reflexivity.
    + exists (a1 ++ a2). rewrite Hh2, Hh, app_assoc. split; auto.
      rewrite forallb_app, Hs2, (Hs Hm). reflexivity.
Qed.

Lemma wp_conj {A} (m : M A) (Q1 Q2 : post A) st :
  wp m Q1 st -> wp m Q2 st -> wp m (fun r s t => Q1 r s t /\ Q2 r s t) st.
Proof. unfold wp. auto. Qed.

Lemma wp_impl {A} (m : M A) (P : Prop) (Q : post A) st :
  (P -> wp m Q st) -> wp m (fun r s t => P -> Q r s t) st.
Proof. unfold wp. auto. Qed.

(** ** One utterance *)

Lemma historyWith_processing transcript b s :
  conversationHistory
    (truncateHistory (push (mkTurn User transcript) (set_processing b s)))
  = historyWith transcript s.
Proof.
  unfold historyWith, truncateHistory. simpl.
  destruct (20 <? _); reflexivity.
Qed.

Lemma truncateHistory_flags s :
  isProcessingResponse (truncateHistory s) = isProcessingResponse s
  /\ isMuted (truncateHistory s) = isMuted s
  /\ isPaused (truncateHistory s) = isPaused s.
Proof. unfold truncateHistory. destruct (20 <? _); auto. Qed.

Lemma processUtterance_post W transcript st :
  wp (processUtterance W transcript) (utterancePost W st transcript) st.
Proof.
  unfold processUtterance.
  apply wp_bind, wp_modify. cbv beta iota.
  apply wp_bind, wp_modify. cbv beta iota.
  apply wp_bind, wp_generate. cbv zeta.
  cbn [session requests app].
  pose proof (truncateHistory_flags (push (mkTurn User transcript) (session st)))
    as (Fp & Fm & Fpa).
  cbn [push set_history isProcessingResponse isMuted isPaused] in Fp, Fm, Fpa.
  unfold utterancePost, cyclePost, firstRequest, historyWith.
  set (s0 := truncateHistory (push (mkTurn User transcript) (session st))) in *.
  destruct (completions W (requests st) _) as [m|e] eqn:E.
  2:{ split; [exact Fp|]. split; [eexists; reflexivity|]. auto. }
  apply wp_bind.
  eapply wp_mono.
  { apply wp_conj.
    - apply (forEach_tools_general W (tool_calls m) (mkSt s0 (S (requests st)))).
    - apply wp_impl. intros H.
      apply (forEach_tools_muted W (tool_calls m) (mkSt s0 (S (requests st)))
               (proj1 H) (proj2 H)). }
  cbv beta. cbn [session requests].
  intros r s1 t1 ((Hp & a1 & Hh & Hl) & Hmuted).
  destruct r as [[]|e].
  - apply wp_bind, wp_getSession. cbv beta iota. apply wp_when.
    destruct (truthy (content m) && negb (isMuted (session s1))) eqn:C.
    + apply andb_true_iff in C. destruct C as [_ C].
      apply negb_true_iff in C.
      apply wp_bind, wp_log. cbv beta iota.
      apply wp_bind, wp_modify. cbv beta iota.
      apply wp_speak. cbn [session requests isMuted push set_history].
      rewrite C.
      assert (forall r' n' tl,
                 utterancePost W st transcript r'
                   (mkSt (push (mkTurn Assistant (orEmpty (content m)))
                               (session s1)) n')
                   (EGenerate (mkTurn System (SYSTEM_PROMPT W)
                                 :: conversationHistory s0) :: tl)) as K.
      { intros r' n' tl.
        unfold utterancePost, cyclePost, firstRequest, historyWith.
        fold s0. rewrite E. split; [simpl; congruence|].
        split; [eexists; reflexivity|]. split.
        - cbn [session push set_history conversationHistory].
          rewrite Hh, !length_app. cbn [List.length]. lia.
        - intros Hm Hn.
          destruct (Hmuted (conj (eq_trans Fm Hm) Hn)) as (_ & Hm1 & _).
          congruence. }
      unfold utterancePost, cyclePost, firstRequest, historyWith in K.
      fold s0 in K. rewrite E in K.
      cbn [session push set_history isMuted] in K. rewrite C in K.
      cbn [app]. destruct (elevenlabs W _ _); apply (K _ 0).
    + split; [congruence|]. split; [eexists; reflexivity|]. split.
      * rewrite Hh, length_app. lia.
      * intros Hm Hn.
        destruct (Hmuted (conj (eq_trans Fm Hm) Hn))
          as (_ & Hm1 & Hsp & Hruns & a2 & Hh2 & Hs2).
        repeat split; auto.
        -- rewrite !app_nil_r. exact Hsp.
        -- rewrite !app_nil_r. exact Hruns.
        -- exists a2. auto.
  - split; [congruence|]. split; [eexists; reflexivity|]. split.
    + rewrite Hh, length_app. lia.
    + intros Hm Hn.
      destruct (Hmuted (conj (eq_trans Fm Hm) Hn)) as (Hr & _). discriminate.
Qed.

Lemma handleUserSpeech_idle W transcript st :
  isProcessingResponse (session st) = false ->
  handleUserSpeech W transcript st
  = (resultOf (cycleRun W transcript st),
     mkSt (set_processing false (finalSession (cycleRun W transcript st)))
          (requests (finalState (cycleRun W transcript st))),
     traceOf (cycleRun W transcript st)).
Proof.
  intros Hp. unfold handleUserSpeech, cycleRun.
  unfold bind at 1. unfold getSession at 1. cbv beta iota. rewrite Hp.
  unfold bind at 1. unfold modify at 1. cbv beta iota.
  unfold tryFinally. 
  destruct (tryCatch _ _ _) as [[r s1] t1].
  unfold modify, resultOf, finalSession, finalState, traceOf. simpl.
  rewrite app_nil_r. reflexivity.
Qed.

Lemma firstRequest_processing W transcript b s :
  firstRequest W transcript (set_processing b s) = firstRequest W transcript s.
Proof.
  unfold firstRequest, historyWith. rewrite historyWith_processing.
  reflexivity.
Qed.

Lemma cycleRun_outcome W transcript st :
  cycleOutcome W st transcript
    (resultOf (cycleRun W transcript st))
    (finalState (cycleRun W transcript st))
    (traceOf (cycleRun W transcript st)).
Proof.
  unfold cycleRun. apply wp_intro. apply wp_tryCatch.
  eapply wp_mono; [apply processUtterance_post|]. cbv beta.
  intros r s1 t1. unfold utterancePost, cyclePost, cycleOutcome.
  cbn [session requests].
  rewrite firstRequest_processing.
  assert (historyWith transcript (set_processing true (session st))
          = historyWith transcript (session st)) as ->
      by apply historyWith_processing.
  cbn [isProcessingResponse set_processing isMuted].
  intros (Hp & (rest & ->) & Hc).
  destruct r as [[]|e].
  - split; auto. split; auto. split; [eexists; reflexivity|].
    destruct (completions W _ _) as [m|e].
    + destruct Hc as (Hl & Hm). split; auto.
      intros H1 H2. destruct (Hm H1 H2) as (_ & K). exact K.
    + destruct Hc as (Hc & _). discriminate.
  - apply wp_log. split; auto. split; auto.
    split; [eexists; reflexivity|].
    destruct (completions W _ _) as [m|e'].
    + destruct Hc as (Hl & Hm). split; auto.
      intros H1 H2. destruct (Hm H1 H2) as (Hc & _). discriminate.
    + destruct Hc as (Hr & -> & Ht). injection Hr as ->.
      split; auto. injection Ht as ->. reflexivity.
Qed.

(** ** Utterances that arrive during a cycle *)

(** C1. An utterance delivered to [handleUserSpeech] while
    [isProcessingResponse] is true leaves the whole state as it was and
    only logs that it was dropped: nothing is appended, generated,
    executed or spoken, and nothing is queued; this holds for every
    sequence of such utterances. *)
Theorem busy_utterances_dropped W st :
  isProcessingResponse (session st) = true ->
  (forall transcript,
      handleUserSpeech W transcript st
      = (Ok tt, st, [ELog LogStillProcessing]))
  /\ (forall transcripts,
         let x := forEach (handleUserSpeech W) transcripts st in
         resultOf x = Ok tt /\ finalState x = st
         /\ traceOf x = map (fun _ => ELog LogStillProcessing) transcripts
         /\ existsb isAction (traceOf x) = false).
Proof.
  intros Hp.
  assert (forall transcript,
             handleUserSpeech W transcript st
             = (Ok tt, st, [ELog LogStillProcessing])) as H1.
  { intros t. unfold handleUserSpeech, bind at 1, getSession. simpl.
    rewrite Hp. reflexivity. }
  split; [exact H1|].
  induction transcripts as [|t ts IH]; cbv zeta in *.
  - repeat split; reflexivity.
  - cbn [forEach]. unfold bind. rewrite H1.
    destruct (forEach (handleUserSpeech W) ts st) as [[r s] tr].
    unfold resultOf, finalState, traceOf in *. simpl in *.
    destruct IH as (-> & -> & -> & Ha). repeat split; auto.
Qed.

Lemma busy_utterances_dropped_witness :
  handleUserSpeech quietWorld (lit "hello")
    (start (mkSession [] true false false))
  = (Ok tt, start (mkSession [] true false false), [ELog LogStillProcessing]).
Proof.
  apply (busy_utterances_dropped quietWorld
           (start (mkSession [] true false false))).
  reflexivity.
Defined.

(** ** Events of the transcription stream *)

(** C7. While [isPaused] is true a completed-transcription event changes
    nothing and has no effect at all: no history entry, no generation, no
    tool, no speech. *)
Theorem paused_ignores_transcription W st transcript :
  isPaused (session st) = true ->
  onMessage W (TranscriptionCompleted transcript) st = (Ok tt, st, []).
Proof.
  intros Hp. unfold onMessage, bind, getSession. simpl.
  rewrite Hp, andb_false_r. reflexivity.
Qed.

Lemma paused_ignores_transcription_witness :
  onMessage quietWorld (TranscriptionCompleted (Some (lit "hello")))
    (start (mkSession [] false false true))
  = (Ok tt, start (mkSession [] false false true), []).
Proof.
  apply paused_ignores_transcription. reflexivity.
Defined.

(** C10. A completed-transcription event whose transcript is absent,
    empty or made of white space only changes nothing and has no effect,
    paused or not; in particular [isProcessingResponse] keeps its value. *)
Theorem blank_transcript_ignored W st transcript :
  (transcript = None
   \/ exists s, transcript = Some s /\ forallb isSpace s = true) ->
  onMessage W (TranscriptionCompleted transcript) st = (Ok tt, st, []).
Proof.
  intros [->|(s & -> & Hs)]; unfold onMessage, bind, getSession; simpl.
  - reflexivity.
  - apply trim_nil_iff in Hs. rewrite Hs. simpl.
    rewrite andb_false_r. reflexivity.
Qed.

Lemma blank_transcript_ignored_witness :
  onMessage quietWorld (TranscriptionCompleted (Some (lit "  ")))
    (start initialSession)
  = (Ok tt, start initialSession, []).
Proof.
  apply blank_transcript_ignored. right. exists (lit "  ").
  split; reflexivity.
Defined.

(** ** Meeting controls *)

(** C6. [mute_self] on a muted session and [unmute_self] on an unmuted
    one change no state, emit no signal and speak nothing (they only log
    the duplicate); [pause_listening] and [resume_listening] set their
    flag, emit their signal and, unless muted, speak their acknowledgement
    whatever the flag was before. *)
Theorem duplicate_controls W a st :
  (isMuted (session st) = true ->
   handleToolCall W (named "mute_self" a) st
   = (Ok tt, st, [ELog (LogToolCall (lit "mute_self")); ELog LogAlreadyMuted]))
  /\ (isMuted (session st) = false ->
      handleToolCall W (named "unmute_self" a) st
      = (Ok tt, st,
         [ELog (LogToolCall (lit "unmute_self")); ELog LogAlreadyUnmuted]))
  /\ (let x := handleToolCall W (named "pause_listening" a) st in
      finalSession x = set_paused true (session st)
      /\ traceOf x
         = [ELog (LogToolCall (lit "pause_listening")); ELog LogPaused;
            ESignal PAUSED]
           ++ (if isMuted (session st) then [] else spoken W st pauseAck))
  /\ (let x := handleToolCall W (named "resume_listening" a) st in
      finalSession x = set_paused false (session st)
      /\ traceOf x
         = [ELog (LogToolCall (lit "resume_listening")); ELog LogResumed;
            ESignal RESUMED]
           ++ (if isMuted (session st) then [] else spoken W st resumeAck)).
Proof.
  destruct st as [[h p mu pa] n].
  split; [|split; [|split]]; try (intros Hm; simpl in Hm; subst mu).
  - apply wp_eq. dispatch. wp_go. auto.
  - apply wp_eq. dispatch. wp_go. auto.
  - cbv zeta.
    by_wp (handleToolCall W (named "pause_listening" a))
          (mkSt (mkSession h p mu pa) n).
    dispatch. unfold spoken, pauseAck. destruct mu; wp_go; split; reflexivity.
  - cbv zeta.
    by_wp (handleToolCall W (named "resume_listening" a))
          (mkSt (mkSession h p mu pa) n).
    dispatch. unfold spoken, resumeAck. destruct mu; wp_go; split; reflexivity.
Qed.

Lemma duplicate_controls_witness :
  handleToolCall quietWorld (named "mute_self" ArgsAbsent) (start mutedSession)
  = (Ok tt, start mutedSession,
     [ELog (LogToolCall (lit "mute_self")); ELog LogAlreadyMuted])
  /\ handleToolCall quietWorld (named "unmute_self" ArgsAbsent)
       (start initialSession)
     = (Ok tt, start initialSession,
        [ELog (LogToolCall (lit "unmute_self")); ELog LogAlreadyUnmuted]).
Proof.
  split.
  - apply (duplicate_controls quietWorld ArgsAbsent (start mutedSession)).
    reflexivity.
  - apply (duplicate_controls quietWorld ArgsAbsent (start initialSession)).
    reflexivity.
Defined.

(** In a run of [leave_meeting] the LEAVE_MEETING signal, whenever it
    is emitted, comes after the completed acknowledgement if the session
    is unmuted, is followed at once by the arming of the 60-second exit
    timer and by nothing else, and leaves [isPaused] true; and it is
    emitted whenever the session is muted or the acknowledgement
    completes. *)
Theorem leave_meeting_order W a st :
  let x := handleToolCall W (named "leave_meeting" a) st in
  let ack := expandAbbreviations leaveAck in
  (forall pre post,
      traceOf x = pre ++ ESignal LEAVE_MEETING :: post ->
      (isMuted (session st) = false -> In (ESpeak ack) pre)
      /\ existsb isSignal pre = false
      /\ post = [EExitTimer 60000]
      /\ isPaused (finalSession x) = true)
  /\ (isMuted (session st) = true
      \/ elevenlabs W (requests st) ack = Resolved tt ->
      resultOf x = Ok tt
      /\ In (ESignal LEAVE_MEETING) (traceOf x)
      /\ In (EExitTimer 60000) (traceOf x)
      /\ finalSession x = set_paused true (session st)).
Proof.
  destruct st as [[h p mu pa] n]. cbv zeta.
  by_wp (handleToolCall W (named "leave_meeting" a))
        (mkSt (mkSession h p mu pa) n).
  dispatch. unfold leaveAck. destruct mu; wp_go.
  all: split;
    [ intros pre post H;
      repeat (destruct pre as [|? pre]; cbn [app] in H;
              [ try discriminate H | injection H as ? H; subst ]);
      try (destruct pre; discriminate H)
    | ].
  all: try (injection H as <-; repeat split; try reflexivity;
            intros; try discriminate; cbn [In]; auto).
  all: intros [Hm|Hr]; try discriminate; repeat split; cbn [In]; auto 8.
Qed.

Lemma leave_meeting_order_witness :
  resultOf (handleToolCall quietWorld (named "leave_meeting" ArgsAbsent)
              (start initialSession)) = Ok tt
  /\ traceOf (handleToolCall quietWorld (named "leave_meeting" ArgsAbsent)
                (start initialSession))
     = [ELog (LogToolCall (lit "leave_meeting")); ELog LogLeaving;
        ESpeak (lit "Okay, signing off!");
        ESignal LEAVE_MEETING; EExitTimer 60000]
  /\ isPaused (finalSession
                 (handleToolCall quietWorld (named "leave_meeting" ArgsAbsent)
                    (start initialSession))) = true.
Proof.
  pose proof (leave_meeting_order quietWorld ArgsAbsent (start initialSession))
    as [Hord Hlive].
  split; [apply Hlive; right; reflexivity|].
  split; [vm_compute; reflexivity|].
  apply (Hord [ELog (LogToolCall (lit "leave_meeting")); ELog LogLeaving;
               ESpeak (lit "Okay, signing off!")]
              [EExitTimer 60000]).
  vm_compute; reflexivity.
Defined.

(** C5, at the failing input.  When the synthesis of the acknowledgement
    is rejected on an unmuted session, [leave_meeting] stops there: the
    exception leaves the handler before the signal, [isPaused] stays
    false and no exit timer is armed; the cycle logs the error and the
    session goes on listening. *)
Theorem leave_meeting_failed_acknowledgement :
  handleToolCall failingSpeech (named "leave_meeting" ArgsAbsent)
    (start initialSession)
  = (Throw (lit "ElevenLabs error 500"),
     mkSt initialSession 1,
     [ELog (LogToolCall (lit "leave_meeting")); ELog LogLeaving;
      ESpeakFailed (lit "Okay, signing off!")])
  /\ handleUserSpeech failingAcknowledgement (lit "leave the meeting")
       (start initialSession)
     = (Ok tt,
        mkSt (mkSession [mkTurn User (lit "leave the meeting")]
                        false false false) 2,
        [EGenerate [mkTurn System (lit "persona");
                    mkTurn User (lit "leave the meeting")];
         ELog (LogToolCall (lit "leave_meeting")); ELog LogLeaving;
         ESpeakFailed (lit "Okay, signing off!");
         ELog (LogResponseError (lit "ElevenLabs error 500"))]).
Proof. split; vm_compute; reflexivity. Qed.

(** ** The processing flag *)

Lemma clear_after_set transcript s :
  isProcessingResponse s = false ->
  set_processing false
    (truncateHistory (push (mkTurn User transcript) (set_processing true s)))
  = truncateHistory (push (mkTurn User transcript) s).
Proof.
  destruct s as [h p mu pa]. simpl. intros ->.
  unfold truncateHistory. simpl. destruct (20 <? _); reflexivity.
Qed.

(** *** What the handlers of other events see *)

Lemma sim_ret A (a : A) : sim (ret a) (ret a).
Proof. intros st H. repeat split; assumption. Qed.

Lemma sim_throw A e : sim (@throw A e) (throw e).
Proof. intros st H. repeat split; assumption. Qed.

Lemma sim_emit e : ownEvent e = true -> sim (emit e) (emit e).
Proof.
  intros He st H. unfold emit, resultOf, finalState, finalSession, traceOf.
  cbn [fst snd filter]. rewrite He. repeat split; assumption.
Qed.

Lemma sim_log l : ownEvent (ELog l) = true -> sim (log l) (log l).
Proof. apply sim_emit. Qed.

Lemma sim_getSession : sim getSession getSession.
Proof. intros st H. repeat split; assumption. Qed.

Lemma sim_nextRequest : sim nextRequest nextRequest.
Proof. intros st H. repeat split; assumption. Qed.

Lemma sim_modify f :
  (forall s, isProcessingResponse (f s) = isProcessingResponse s) ->
  sim (modify f) (modify f).
Proof.
  intros Hf st H. unfold modify, resultOf, finalSession, finalState, traceOf.
  cbn [fst snd filter session]. rewrite Hf. repeat split; assumption.
Qed.

Lemma sim_await A (o : outcome A) : sim (await o) (await o).
Proof. destruct o; [apply sim_ret | apply sim_throw]. Qed.

Lemma sim_bind A B (m m0 : M A) (k k0 : A -> M B) :
  sim m m0 -> (forall a, sim (k a) (k0 a)) -> sim (bind m k) (bind m0 k0).
Proof.
  intros Hm Hk st H. specialize (Hm st H). unfold bind.
  destruct (m st) as [[r s1] t1], (m0 st) as [[r0 s0] t0].
  unfold resultOf, finalState, finalSession, traceOf in Hm.
  cbn [fst snd] in Hm. destruct Hm as (-> & -> & <- & Hp).
  destruct r0 as [a|e].
  - specialize (Hk a s0 Hp).
    destruct (k a s0) as [[r2 s2] t2], (k0 a s0) as [[r3 s3] t3].
    unfold resultOf, finalState, finalSession, traceOf in *.
    cbn [fst snd] in *. destruct Hk as (-> & -> & <- & Hq).
    rewrite filter_app. repeat split; assumption.
  - unfold resultOf, finalState, finalSession, traceOf.
    cbn [fst snd]. repeat split; assumption.
Qed.

Lemma sim_tryCatch A (m m0 : M A) (h h0 : error -> M A) :
  sim m m0 -> (forall e, sim (h e) (h0 e)) ->
  sim (tryCatch m h) (tryCatch m0 h0).
Proof.
  intros Hm Hh st H. specialize (Hm st H). unfold tryCatch.
  destruct (m st) as [[r s1] t1], (m0 st) as [[r0 s0] t0].
  unfold resultOf, finalState, finalSession, traceOf in Hm.
  cbn [fst snd] in Hm. destruct Hm as (-> & -> & <- & Hp).
  destruct r0 as [a|e].
  - unfold resultOf, finalState, finalSession, traceOf.
    cbn [fst snd]. repeat split; assumption.
  - specialize (Hh e s0 Hp).
    destruct (h e s0) as [[r2 s2] t2], (h0 e s0) as [[r3 s3] t3].
    unfold resultOf, finalState, finalSession, traceOf in *.
    cbn [fst snd] in *. destruct Hh as (-> & -> & <- & Hq).
    rewrite filter_app. repeat split; assumption.
Qed.

Lemma sim_when b (m m0 : M unit) : sim m m0 -> sim (when b m) (when b m0).
Proof. destruct b; [trivial | intros _; apply sim_ret]. Qed.

Lemma sim_forEach A (f f0 : A -> M unit) l :
  (forall a, sim (f a) (f0 a)) -> sim (forEach f l) (forEach f0 l).
Proof.
  intros Hf. induction l as [|a l IH]; cbn [forEach].
  - apply sim_ret.
  - apply sim_bind; [apply Hf | intros _; exact IH].
Qed.

Lemma sim_suspended (L : EventLoop) n :
  defers L -> sim (suspended (loop := L) n) (suspended (loop := undisturbed) n).
Proof.
  intros HL st H. destruct (HL n st H) as (Hs & Ht).
  unfold suspended, whilePending.
  destruct (L n st) as [s1 t1]. cbn [fst snd] in Hs, Ht. subst s1.
  cbv [undisturbed resultOf finalState finalSession traceOf fst snd].
  repeat split; assumption.
Qed.

Lemma processing_truncateHistory s :
  isProcessingResponse (truncateHistory s) = isProcessingResponse s.
Proof. unfold truncateHistory. destruct (20 <? _); reflexivity. Qed.

Ltac sim_step :=
  cbv zeta;
  lazymatch goal with
  | |- sim (bind _ _) _ => apply sim_bind; [| intros ?]
  | |- sim (ret _) _ => apply sim_ret
  | |- sim (throw _) _ => apply sim_throw
  | |- sim (emit _) _ => apply sim_emit; reflexivity
  | |- sim (log _) _ => apply sim_log; reflexivity
  | |- sim getSession _ => apply sim_getSession
  | |- sim nextRequest _ => apply sim_nextRequest
  | |- sim (await _) _ => apply sim_await
  | |- sim (modify truncateHistory) _ =>
      apply sim_modify; apply processing_truncateHistory
  | |- sim (modify _) _ => apply sim_modify; intros ?; reflexivity
  | |- sim (tryCatch _ _) _ => apply sim_tryCatch; [| intros ?]
  | |- sim (when _ _) _ => apply sim_when
  | |- sim (suspended _) _ => apply sim_suspended; assumption
  | |- sim (if ?b then _ else _) _ => destruct b
  | |- sim (match ?x with _ => _ end) _ => destruct x
  end.

Section Disturbed.
Variable W : World.
Variable L : EventLoop.
Hypothesis L_defers : defers L.

Lemma sim_generateResponse :
  sim (generateResponse W (loop := L)) (generateResponse W (loop := undisturbed)).
Proof. unfold generateResponse. repeat sim_step. Qed.

Lemma sim_searchExa query count :
  sim (searchExa W (loop := L) query count) (searchExa W (loop := undisturbed) query count).
Proof. unfold searchExa. repeat sim_step. Qed.

Lemma sim_speakElevenLabs text :
  sim (speakElevenLabs W (loop := L) text) (speakElevenLabs W (loop := undisturbed) text).
Proof. unfold speakElevenLabs. repeat sim_step. Qed.

Lemma sim_speakUnlessMuted text :
  sim (speakUnlessMuted W (loop := L) text) (speakUnlessMuted W (loop := undisturbed) text).
Proof.
  unfold speakUnlessMuted. repeat sim_step. apply sim_speakElevenLabs.
Qed.

Ltac sim_call :=
  lazymatch goal with
  | |- sim (generateResponse _) _ => apply sim_generateResponse
  | |- sim (searchExa _ _ _) _ => apply sim_searchExa
  | |- sim (speakElevenLabs _ _) _ => apply sim_speakElevenLabs
  | |- sim (speakUnlessMuted _ _) _ => apply sim_speakUnlessMuted
  | |- _ => sim_step
  end.

Lemma sim_webSearch query count :
  sim (webSearch W (loop := L) query count)
      (webSearch W (loop := undisturbed) query count).
Proof. unfold webSearch. repeat sim_call. Qed.

Lemma sim_handleToolCall tc :
  sim (handleToolCall W (loop := L) tc)
      (handleToolCall W (loop := undisturbed) tc).
Proof.
  unfold handleToolCall, parseArguments. repeat sim_call.
  apply sim_webSearch.
Qed.

Lemma sim_processUtterance transcript :
  sim (processUtterance W (loop := L) transcript)
      (processUtterance W (loop := undisturbed) transcript).
Proof.
  unfold processUtterance. repeat sim_call.
  apply sim_forEach. apply sim_handleToolCall.
Qed.

End Disturbed.

Lemma arriving_defers W inner events : defers (arriving W inner events).
Proof.
  intros n st H. unfold arriving.
  generalize (events n) as evs. intros evs.
  assert (K : onMessages W (loop := inner) evs st
              = (Ok tt, st, traceOf (onMessages W (loop := inner) evs st))
              /\ filter ownEvent
                   (traceOf (onMessages W (loop := inner) evs st)) = []).
  { unfold onMessages. induction evs as [|ev evs IH]; cbn [forEach].
    - split; reflexivity.
    - destruct IH as (IH1 & IH2).
      assert (E : exists t, onMessage W (loop := inner) ev st = (Ok tt, st, t)
                            /\ filter ownEvent t = []).
      { destruct ev; cbn [onMessage].
        - eexists; split; reflexivity.
        - eexists; split; reflexivity.
        - unfold bind, getSession, when. cbv beta iota.
          destruct (negb _); eexists; split; reflexivity.
        - unfold bind, getSession, when. cbv beta iota.
          destruct (negb _); eexists; split; reflexivity.
        - unfold bind at 1. unfold getSession at 1. cbv beta iota.
          destruct (_ && _ && _).
          + unfold handleUserSpeech.
            unfold bind, getSession, log, emit. cbv beta iota.
            cbn [session]. rewrite H. eexists; split; reflexivity.
          + eexists; split; reflexivity.
        - eexists; split; reflexivity.
        - eexists; split; reflexivity. }
      destruct E as (t & E1 & E2).
      unfold bind. rewrite E1. rewrite IH1.
      unfold traceOf. cbn [fst snd]. rewrite IH1. cbn [fst snd].
      rewrite filter_app, E2. split; [reflexivity|].
      exact IH2. }
  destruct K as (K1 & K2). rewrite K1. cbn [fst snd]. split; [reflexivity|].
  exact K2.
Qed.

(** *** A summary request that fails *)

Ltac oracle_known :=
  repeat match goal with
         | H : Resolved _ = Resolved _ |- _ => injection H as H; subst
         | H : Rejected _ = Rejected _ |- _ => injection H as H; subst
         | H : Resolved _ = Rejected _ |- _ => discriminate H
         | H : Rejected _ = Resolved _ |- _ => discriminate H
         end.

Ltac web_search_run st :=
  cbv zeta;
  lazymatch goal with
  | |- context [handleToolCall ?W ?tc st] => by_wp (handleToolCall W tc) st
  end;
  dispatch; unfold webSearch, parseArguments, apology, guardedApology, spoken,
    notConfigured, searchFailed, noResults.

Lemma web_search_summary_failure W st c q cnt raw r rs e :
  EXA_API_KEY W = true ->
  exa W (requests st) (c :: q) (countOrDefault cnt) = Resolved raw ->
  map normalizeResult (sliceTo (countOrDefault cnt) raw) = r :: rs ->
  let h2 :=
    conversationHistory (session st)
      ++ [mkTurn Assistant (searchedMarker (c :: q));
          mkTurn System
            (searchResultsPrompt (join newline (resultLines 0 (r :: rs))))] in
  let request := mkTurn System (SYSTEM_PROMPT W) :: h2 in
  completions W (S (requests st)) request = Rejected e ->
  let x := handleToolCall W (loop := undisturbed)
             (named "web_search" (ArgsObject (Some (c :: q)) cnt)) st in
  finalSession x = set_history h2 (session st)
  /\ traceOf x
     = [ELog (LogToolCall (lit "web_search"));
        ELog (LogSearching (c :: q));
        ESearch (c :: q) (countOrDefault cnt);
        ELog (LogGotResults (List.length (r :: rs)));
        EGenerate request;
        ELog (LogSearchError e)]
         ++ apology W (mkSt (session st) (S (S (requests st)))) searchFailed.
Proof.
  intros Hkey Hexa Hres. destruct st as [[h p mu pa] n].
  cbn [requests session] in Hexa. cbv zeta. cbn [requests session conversationHistory].
  intros Hgen.
  web_search_run (mkSt (mkSession h p mu pa) n).
  rewrite Hkey. cbn [negb].
  destruct mu; wp_go; oracle_known.
  all: match goal with
       | H : map normalizeResult _ = _ |- _ =>
           rewrite Hres in H; try discriminate H; injection H as <- <-
       end.
  all: rewrite <- ?app_assoc in *; cbn [app] in *.
  all: try match goal with
       | H : completions _ _ _ = _ |- _ => rewrite Hgen in H
       end; oracle_known.
  all: split;
    [ unfold push, set_history;
      cbn [conversationHistory isProcessingResponse isMuted isPaused];
      rewrite <- ?app_assoc; reflexivity
    | try reflexivity ].
  all: cbn [isMuted session]; unfold spoken; cbn [requests].
  all: repeat match goal with
       | H : elevenlabs _ _ _ = _ |- _ => rewrite H; clear H
       end; try reflexivity.
Qed.

(** *** The cycle *)

Lemma handleUserSpeech_cycle W (L : EventLoop) transcript st :
  isProcessingResponse (session st) = false ->
  handleUserSpeech W (loop := L) transcript st
  = let y := tryCatch (processUtterance W (loop := L) transcript)
                      (fun err => log (LogResponseError err))
                      (mkSt (set_processing true (session st)) (requests st)) in
    (resultOf y,
     mkSt (set_processing false (finalSession y)) (requests (finalState y)),
     traceOf y).
Proof.
  intros Hp. unfold handleUserSpeech.
  unfold bind at 1. unfold getSession at 1. cbv beta iota zeta. rewrite Hp.
  unfold bind at 1. unfold modify at 1. cbv beta iota.
  unfold tryFinally.
  destruct (tryCatch _ _ _) as [[r s1] t1].
  unfold modify, resultOf, finalSession, finalState, traceOf. simpl.
  rewrite app_nil_r. reflexivity.
Qed.

Lemma cycle_ignores_arrivals W (L : EventLoop) transcript st :
  defers L ->
  isProcessingResponse (session st) = false ->
  let x := handleUserSpeech W (loop := L) transcript st in
  let quiet := handleUserSpeech W (loop := undisturbed) transcript st in
  resultOf x = resultOf quiet
  /\ finalState x = finalState quiet
  /\ filter ownEvent (traceOf x) = traceOf quiet.
Proof.
  intros HL Hp. cbv zeta.
  rewrite !handleUserSpeech_cycle by exact Hp. cbv zeta.
  assert (S : sim (tryCatch (processUtterance W (loop := L) transcript)
                            (fun err => log (LogResponseError err)))
                  (tryCatch (processUtterance W (loop := undisturbed)
                                              transcript)
                            (fun err => log (LogResponseError err)))).
  { apply sim_tryCatch; [apply sim_processUtterance; exact HL|].
    intros e. apply sim_log. reflexivity. }
  destruct (S (mkSt (set_processing true (session st)) (requests st))
              eq_refl) as (Hr & Hs & Ht & _).
  unfold resultOf, finalSession, finalState, traceOf in *.
  cbn [fst snd]. rewrite Hr, Hs, Ht.
  repeat split.
Qed.

Lemma traceOf_bind_modify A f (k : unit -> M A) st :
  bind (modify f) k st = k tt (mkSt (f (session st)) (requests st)).
Proof.
  unfold bind, modify. destruct (k tt _) as [[r s] t]. reflexivity.
Qed.

Lemma traceOf_bind_prefix A B (m : M A) (k : A -> M B) st :
  exists rest, traceOf (bind m k st) = traceOf (m st) ++ rest.
Proof.
  unfold bind. destruct (m st) as [[[a|e] s1] t1].
  - destruct (k a s1) as [[r s2] t2]. exists t2. reflexivity.
  - exists []. unfold traceOf. cbn [snd]. rewrite app_nil_r. reflexivity.
Qed.

Lemma traceOf_tryCatch_prefix A (m : M A) h st :
  exists rest, traceOf (tryCatch m h st) = traceOf (m st) ++ rest.
Proof.
  unfold tryCatch. destruct (m st) as [[[a|e] s1] t1].
  - exists []. unfold traceOf. cbn [snd]. rewrite app_nil_r. reflexivity.
  - destruct (h e s1) as [[r s2] t2]. exists t2. reflexivity.
Qed.

Lemma traceOf_generateResponse W (L : EventLoop) st :
  traceOf (generateResponse W (loop := L) st)
  = EGenerate (mkTurn System (SYSTEM_PROMPT W)
                 :: conversationHistory (session st))
      :: snd (L (requests st) (mkSt (session st) (S (requests st)))).
Proof.
  unfold generateResponse, bind, getSession, nextRequest, emit, suspended,
    whilePending. cbv beta iota zeta.
  destruct (L _ _) as [s2 t2]. cbn [app snd].
  destruct (completions W _ _); cbn [await ret throw];
    unfold ret, throw, traceOf; cbn [snd app]; rewrite app_nil_r; reflexivity.
Qed.

(** The state that the other handlers find while the first request of a
    cycle is pending. *)
Lemma first_request_pending W (L : EventLoop) transcript st :
  isProcessingResponse (session st) = false ->
  exists rest,
    traceOf (handleUserSpeech W (loop := L) transcript st)
    = EGenerate (firstRequest W transcript (session st))
        :: snd (L (requests st)
                  (mkSt (truncateHistory
                           (push (mkTurn User transcript)
                                 (set_processing true (session st))))
                        (S (requests st))))
        ++ rest.
Proof.
  intros Hp. rewrite handleUserSpeech_cycle by exact Hp. cbv zeta.
  unfold traceOf at 1. cbn [snd].
  destruct (traceOf_tryCatch_prefix _
              (processUtterance W (loop := L) transcript)
              (fun err => log (LogResponseError err))
              (mkSt (set_processing true (session st)) (requests st)))
    as (r1 & ->).
  unfold processUtterance. rewrite !traceOf_bind_modify.
  cbn [session requests].
  match goal with
  | |- context [traceOf (bind ?m ?k ?s)] =>
      destruct (traceOf_bind_prefix _ _ m k s) as (r2 & ->)
  end.
  rewrite traceOf_generateResponse. cbn [session requests].
  exists (r2 ++ r1).
  rewrite <- (firstRequest_processing W transcript true (session st)).
  unfold firstRequest, historyWith.
  cbn [app]. rewrite <- !app_assoc. reflexivity.
Qed.

Lemma paused_truncateHistory s :
  isPaused (truncateHistory s) = isPaused s.
Proof. unfold truncateHistory. destruct (20 <? _); reflexivity. Qed.

Lemma arriving_utterance W inner events n st t2 :
  events n = [TranscriptionCompleted (Some t2)] ->
  heard (Some t2) = true ->
  isPaused (session st) = false ->
  isProcessingResponse (session st) = true ->
  snd (arriving W inner events n st)
  = [ELog (LogUser t2); ELog LogStillProcessing].
Proof.
  intros He Hh Hpa Hp. unfold arriving. rewrite He.
  unfold onMessages. cbn [forEach onMessage].
  unfold heard in Hh.
  unfold handleUserSpeech, bind, getSession, log, emit, ret.
  cbv beta iota zeta. cbn [session].
  rewrite Hh, Hpa. cbn [andb negb]. cbv beta. rewrite Hp. reflexivity.
Qed.




(** ** The bound on the history *)

Lemma sliceLast_length {A} (n : nat) (l : list A) :
  List.length (sliceLast n l) = Nat.min n (List.length l).
Proof. unfold sliceLast. rewrite length_skipn. lia. Qed.

Lemma sliceLast_suffix {A} (n : nat) (l : list A) :
  exists dropped, l = dropped ++ sliceLast n l.
Proof.
  exists (firstn (List.length l - n) l). unfold sliceLast.
  symmetry. apply firstn_skipn.
Qed.

Lemma historyWith_bound transcript s :
  let h := conversationHistory s ++ [mkTurn User transcript] in
  List.length (historyWith transcript s) <= 20
  /\ (exists dropped, h = dropped ++ historyWith transcript s)
  /\ List.length (historyWith transcript s) = Nat.min 20 (List.length h).
Proof.
  destruct s as [h p mu pa]. cbv zeta. unfold historyWith, truncateHistory.
  cbn [push set_history conversationHistory].
  destruct (20 <? _) eqn:E; cbn [set_history conversationHistory].
  - apply Nat.ltb_lt in E. rewrite sliceLast_length.
    split; [lia|]. split; [apply sliceLast_suffix | reflexivity].
  - apply Nat.ltb_ge in E. split; [exact E|]. split; [exists []; reflexivity | ]. cbn [push set_history conversationHistory]. lia.
Qed.

(** C2, as the code has it.  The history is cut back to its 20 most
    recent entries, in order, when the user turn of a cycle is appended,
    so that the first generation request of every cycle carries at most 20
    turns of history; the turns appended later in the cycle are not
    followed by a cut, and at the end of the cycle the history holds at
    most one entry more, and three more for every tool call. *)
Theorem history_truncated_with_user_turn W st transcript :
  isProcessingResponse (session st) = false ->
  let h := conversationHistory (session st) ++ [mkTurn User transcript] in
  let h' := historyWith transcript (session st) in
  let x := handleUserSpeech W transcript st in
  List.length h' <= 20
  /\ (exists dropped, h = dropped ++ h')
  /\ List.length h' = Nat.min 20 (List.length h)
  /\ (exists rest,
         traceOf x = EGenerate (mkTurn System (SYSTEM_PROMPT W) :: h') :: rest)
  /\ (forall m,
         completions W (requests st) (firstRequest W transcript (session st))
         = Resolved m ->
         List.length (conversationHistory (finalSession x))
         <= 20 + 3 * List.length (tool_calls m) + 1).
Proof.
  intros Hp. cbv zeta.
  pose proof (historyWith_bound transcript (session st)) as (B1 & B2 & B3).
  pose proof (cycleRun_outcome W transcript st) as (Hr & Hf & Hg & Hc).
  rewrite (handleUserSpeech_idle W transcript st Hp).
  unfold traceOf at 1, finalSession at 1, finalState at 1.
  cbn [fst snd session].
  repeat split; auto.
  intros m E. rewrite E in Hc. destruct Hc as (Hl & _).
  unfold finalSession, set_processing in *. unfold finalState at 1.
  cbn [fst snd session conversationHistory] in *. lia.
Qed.

Lemma history_truncated_with_user_turn_witness :
  List.length (historyWith (lit "hello") fullSession) <= 20.
Proof.
  apply (history_truncated_with_user_turn (replying "Hi." [])
           (start fullSession) (lit "hello") eq_refl).
Defined.

(** After the assistant turn of a cycle the history holds 21 entries. *)
Lemma history_exceeds_20 :
  List.length (conversationHistory fullSession) <= 20
  /\ ~ List.length
         (conversationHistory
            (finalSession
               (handleUserSpeech (replying "Hi." []) (lit "hello")
                  (start fullSession)))) <= 20.
Proof.
  split; [vm_compute; repeat constructor|].
  assert (List.length
            (conversationHistory
               (finalSession
                  (handleUserSpeech (replying "Hi." []) (lit "hello")
                     (start fullSession)))) = 21) as ->
      by (vm_compute; reflexivity).
  lia.
Qed.

(** ** A cycle on a muted session *)

Lemma trim_nonempty (t : jsstring) : trim t <> [] -> t <> [].
Proof. intros H ->. apply H. reflexivity. Qed.

(** An utterance that is heard is logged and handed to
    [handleUserSpeech]. *)
Lemma onMessage_heard W transcript st :
  isPaused (session st) = false -> trim transcript <> [] ->
  onMessage W (TranscriptionCompleted (Some transcript)) st
  = (resultOf (handleUserSpeech W transcript st),
     finalState (handleUserSpeech W transcript st),
     ELog (LogUser transcript) :: traceOf (handleUserSpeech W transcript st)).
Proof.
  intros Hp Ht. pose proof (@trim_nonempty transcript Ht) as Hn.
  unfold onMessage. unfold bind at 1. unfold getSession at 1. cbv beta iota.
  rewrite Hp. cbn [option_map orEmpty]. 
  destruct transcript as [|c t]; [congruence|].
  destruct (trim (c :: t)) as [|d u] eqn:E; [congruence|].
  cbn [truthy andb negb]. unfold bind, log, emit.
  destruct (handleUserSpeech W (c :: t) st) as [[r s] tr]. reflexivity.
Qed.

Lemma cycleRun_unmute W transcript st m a c cs :
  isMuted (session st) = true ->
  completions W (requests st) (firstRequest W transcript (session st))
  = Resolved m ->
  tool_calls m = [named "unmute_self" a] ->
  content m = Some (c :: cs) ->
  let y := cycleRun W transcript st in
  isMuted (finalSession y) = false
  /\ In (ESignal UNMUTED) (traceOf y)
  /\ conversationHistory (finalSession y)
     = historyWith transcript (session st) ++ [mkTurn Assistant (c :: cs)]
  /\ existsb isSpeech (traceOf y) = true.
Proof.
  intros Hm E Htc Hc. cbv zeta. unfold cycleRun, finalSession.
  pattern (resultOf
             (tryCatch (processUtterance W transcript)
                (fun err => log (LogResponseError err))
                (mkSt (set_processing true (session st)) (requests st)))),
          (finalState
             (tryCatch (processUtterance W transcript)
                (fun err => log (LogResponseError err))
                (mkSt (set_processing true (session st)) (requests st)))),
          (traceOf
             (tryCatch (processUtterance W transcript)
                (fun err => log (LogResponseError err))
                (mkSt (set_processing true (session st)) (requests st)))).
  apply wp_intro, wp_tryCatch. unfold processUtterance.
  apply wp_bind, wp_modify. cbv beta iota.
  apply wp_bind, wp_modify. cbv beta iota.
  apply wp_bind, wp_generate. cbv zeta. cbn [session requests].
  rewrite <- (firstRequest_processing W transcript true) in E.
  unfold firstRequest in E. unfold historyWith in E.
  rewrite E.
  rewrite <- (historyWith_processing transcript true (session st)).
  pose proof (truncateHistory_flags
                (push (mkTurn User transcript)
                      (set_processing true (session st)))) as (_ & Fm & _).
  cbn [push set_history set_processing isMuted] in Fm. rewrite Hm in Fm.
  destruct (truncateHistory
              (push (mkTurn User transcript)
                    (set_processing true (session st))))
    as [h0 p0 mu0 pa0].
  cbn [isMuted] in Fm. subst mu0.
  rewrite Htc, Hc. cbn [forEach]. dispatch. wp_go.
  all: try match goal with
           | H : truthy _ && _ = false |- _ => cbn in H; discriminate H
           end.
  all: cbn [orEmpty In existsb isSpeech orb conversationHistory isMuted];
    repeat split; auto 8.
Qed.

Lemma heard_cycle W transcript st :
  isPaused (session st) = false ->
  isProcessingResponse (session st) = false ->
  trim transcript <> [] ->
  let x := onMessage W (TranscriptionCompleted (Some transcript)) st in
  traceOf x = ELog (LogUser transcript) :: traceOf (cycleRun W transcript st)
  /\ finalSession x
     = set_processing false (finalSession (cycleRun W transcript st)).
Proof.
  intros Hpa Hp Ht. cbv zeta.
  rewrite (onMessage_heard W transcript st Hpa Ht).
  rewrite (handleUserSpeech_idle W transcript st Hp).
  split; reflexivity.
Qed.




(** ** The search client *)

Lemma sliceTo_length {A} (count : Z) (l : list A) :
  (0 <= count)%Z -> List.length (sliceTo count l) <= Z.to_nat count.
Proof.
  intros H. unfold sliceTo.
  destruct (count <? 0)%Z eqn:E; [apply Z.ltb_lt in E; lia|].
  rewrite length_firstn. lia.
Qed.

(** C9, as the code has it.  [searchExa] sends the count it is given and
    cuts the results to that count, so for a count that is not negative
    the list returned holds at most [count] entries; the count is the
    argument of the tool call, 3 when it is absent or 0, and is not
    brought into the range 1 to 5. *)
Theorem search_results_bounded_by_count W query count st :
  (0 <= count)%Z ->
  let x := searchExa W query count st in
  traceOf x = [ESearch query count]
  /\ (forall results,
         resultOf x = Ok results ->
         List.length results <= Z.to_nat count)
  /\ countOrDefault None = 3%Z
  /\ countOrDefault (Some 0%Z) = 3%Z
  /\ (forall c, c <> 0%Z -> countOrDefault (Some c) = c).
Proof.
  intros Hc. cbv zeta.
  split; [|split].
  - pattern (resultOf (searchExa W query count st)),
            (finalState (searchExa W query count st)),
            (traceOf (searchExa W query count st)).
    apply wp_intro, wp_searchExa. destruct (exa W _ _ _); reflexivity.
  - pattern (resultOf (searchExa W query count st)),
            (finalState (searchExa W query count st)),
            (traceOf (searchExa W query count st)).
    apply wp_intro, wp_searchExa. destruct (exa W _ _ _) as [rs|e].
    + intros results H. injection H as <-.
      rewrite length_map. apply sliceTo_length. exact Hc.
    + intros results H. discriminate H.
  - repeat split. intros c Hc0. unfold countOrDefault.
    destruct (c =? 0)%Z eqn:E; [apply Z.eqb_eq in E; contradiction|reflexivity].
Qed.

Lemma search_results_bounded_by_count_witness :
  traceOf (searchExa generousSearch (lit "cafes") 3 (start initialSession))
  = [ESearch (lit "cafes") 3].
Proof.
  apply (search_results_bounded_by_count generousSearch (lit "cafes") 3
           (start initialSession)).
  lia.
Defined.

(** A count of 7 is requested and answered with 7 results. *)
Lemma search_count_not_clamped :
  let x := handleToolCall generousSearch
             (named "web_search" (ArgsObject (Some (lit "cafes")) (Some 7%Z)))
             (start initialSession) in
  In (ESearch (lit "cafes") 7) (traceOf x)
  /\ (exists results,
         resultOf (searchExa generousSearch (lit "cafes") 7
                     (start initialSession)) = Ok results
         /\ List.length results = 7)
  /\ ~ (forall results,
           resultOf (searchExa generousSearch (lit "cafes") 7
                       (start initialSession)) = Ok results ->
           List.length results <= 5).
Proof.
  cbv zeta. split; [|split].
  - vm_compute. auto.
  - eexists. split; [vm_compute; reflexivity|]. reflexivity.
  - intros H.
    specialize (H (map normalizeResult sevenPages) eq_refl).
    vm_compute in H. lia.
Qed.

(* ================================================================== *)
(** * Further properties *)

(** ** What each tool may change *)

Ltac name_known :=
  repeat match goal with
         | H : jsstring_eqb _ _ = true |- _ => apply jsstring_eqb_eq in H
         end;
  subst; auto 6.

Ltac frame_leaf :=
  repeat split; intros Hchanged;
  first [ exfalso; apply Hchanged; reflexivity | name_known ].

(** X1. A tool call never changes [isProcessingResponse]; it changes
    [isMuted] only when it is [mute_self] or [unmute_self], [isPaused]
    only when it is [leave_meeting], [pause_listening] or
    [resume_listening], and the history only when it is [web_search]. *)
Theorem handleToolCall_frame W tc st :
  let x := handleToolCall W tc st in
  isProcessingResponse (finalSession x) = isProcessingResponse (session st)
  /\ (isMuted (finalSession x) <> isMuted (session st) ->
      functionName tc = lit "mute_self"
      \/ functionName tc = lit "unmute_self")
  /\ (isPaused (finalSession x) <> isPaused (session st) ->
      functionName tc = lit "leave_meeting"
      \/ functionName tc = lit "pause_listening"
      \/ functionName tc = lit "resume_listening")
  /\ (conversationHistory (finalSession x)
      <> conversationHistory (session st) ->
      functionName tc = lit "web_search").
Proof.
  destruct st as [[h p mu pa] n]. destruct tc as [name args]. cbv zeta.
  by_wp (handleToolCall W (mkToolCall name args))
        (mkSt (mkSession h p mu pa) n).
  unfold handleToolCall, webSearch, parseArguments.
  destruct mu.
  all: wp_go.
  all: split; [reflexivity|].
  all: frame_leaf.
Qed.

(** ** Web search *)

(** X3. [web_search] without arguments, without [query] or with an
    empty [query] returns at once: the state is unchanged, no request is
    sent and nothing is spoken. *)
Theorem web_search_without_query W st args :
  noQuery args = true ->
  handleToolCall W (named "web_search" args) st
  = (Ok tt, st, [ELog (LogToolCall (lit "web_search")); ELog LogNoQuery]).
Proof.
  intros H. apply wp_eq. dispatch. unfold webSearch, parseArguments.
  destruct args as [|e|[[|c q]|] cnt]; try discriminate H; wp_go; auto.
Qed.

Lemma web_search_without_query_witness :
  handleToolCall quietWorld (named "web_search" ArgsAbsent)
    (start initialSession)
  = (Ok tt, start initialSession,
     [ELog (LogToolCall (lit "web_search")); ELog LogNoQuery]).
Proof.
  apply (web_search_without_query quietWorld (start initialSession)
           ArgsAbsent).
  reflexivity.
Defined.

(** X4. Without the search credential [web_search] sends no request
    and leaves the session as it is; unless muted it says that the search
    is not configured, and a failure of that synthesis is caught and
    answered with the apology of the [catch] block. *)
Theorem web_search_without_key W st c q cnt :
  EXA_API_KEY W = false ->
  let x := handleToolCall W
             (named "web_search" (ArgsObject (Some (c :: q)) cnt)) st in
  finalSession x = session st
  /\ traceOf x
     = [ELog (LogToolCall (lit "web_search")); ELog LogNoExaKey]
         ++ guardedApology W st notConfigured.
Proof.
  intros Hkey. destruct st as [[h p mu pa] n].
  web_search_run (mkSt (mkSession h p mu pa) n).
  rewrite Hkey. destruct mu; wp_go; split; reflexivity.
Qed.

Lemma web_search_without_key_witness :
  finalSession
    (handleToolCall unconfigured
       (named "web_search" (ArgsObject (Some (lit "cafes")) None))
       (start initialSession))
  = initialSession.
Proof.
  apply (web_search_without_key unconfigured (start initialSession)
           99%N (lit "afes") None eq_refl).
Defined.

(** X5. Arguments that do not parse and a search that is rejected are
    caught: the error is logged, the session is unchanged and, unless
    muted, the apology is spoken. *)
Theorem web_search_failure W st :
  (forall e,
      let x := handleToolCall W (named "web_search" (ArgsInvalid e)) st in
      finalSession x = session st
      /\ traceOf x
         = [ELog (LogToolCall (lit "web_search")); ELog (LogSearchError e)]
             ++ apology W st searchFailed)
  /\ (forall c q cnt e,
         EXA_API_KEY W = true ->
         exa W (requests st) (c :: q) (countOrDefault cnt) = Rejected e ->
         let x := handleToolCall W
                    (named "web_search" (ArgsObject (Some (c :: q)) cnt)) st in
         finalSession x = session st
         /\ traceOf x
            = [ELog (LogToolCall (lit "web_search"));
               ELog (LogSearching (c :: q));
               ESearch (c :: q) (countOrDefault cnt);
               ELog (LogSearchError e)]
                ++ apology W (mkSt (session st) (S (requests st)))
                     searchFailed).
Proof.
  destruct st as [[h p mu pa] n]. split.
  - intros e. web_search_run (mkSt (mkSession h p mu pa) n).
    destruct mu; wp_go; split; reflexivity.
  - intros c q cnt e Hkey Hexa. cbn [requests session] in Hexa.
    web_search_run (mkSt (mkSession h p mu pa) n).
    rewrite Hkey. cbn [negb].
    destruct mu; wp_go; oracle_known.
    all: split; reflexivity.
Qed.

Lemma web_search_failure_witness :
  finalSession
    (handleToolCall failingSearch
       (named "web_search" (ArgsObject (Some (lit "cafes")) None))
       (start initialSession))
  = initialSession.
Proof.
  destruct (web_search_failure failingSearch (start initialSession))
    as [_ H].
  apply (H 99%N (lit "afes") None (lit "rate limited") eq_refl eq_refl).
Defined.

(** X6. A search without results leaves the history as it is and
    starts no generation; unless muted the fixed sentence is spoken. *)
Theorem web_search_empty_results W st c q cnt raw :
  EXA_API_KEY W = true ->
  exa W (requests st) (c :: q) (countOrDefault cnt) = Resolved raw ->
  sliceTo (countOrDefault cnt) raw = [] ->
  let x := handleToolCall W
             (named "web_search" (ArgsObject (Some (c :: q)) cnt)) st in
  finalSession x = session st
  /\ traceOf x
     = [ELog (LogToolCall (lit "web_search"));
        ELog (LogSearching (c :: q));
        ESearch (c :: q) (countOrDefault cnt)]
         ++ guardedApology W (mkSt (session st) (S (requests st))) noResults.
Proof.
  intros Hkey Hexa Hnone. destruct st as [[h p mu pa] n].
  cbn [requests session] in Hexa.
  web_search_run (mkSt (mkSession h p mu pa) n).
  rewrite Hkey. cbn [negb].
  destruct mu; wp_go; oracle_known.
  all: match goal with
       | H : map normalizeResult _ = _ |- _ =>
           rewrite Hnone in H; try discriminate H
       end.
  all: split; reflexivity.
Qed.

Lemma web_search_empty_results_witness :
  finalSession
    (handleToolCall quietWorld
       (named "web_search" (ArgsObject (Some (lit "cafes")) None))
       (start initialSession))
  = initialSession.
Proof.
  apply (web_search_empty_results quietWorld (start initialSession)
           99%N (lit "afes") None [] eq_refl eq_refl eq_refl).
Defined.

(** X7. A search with results appends its marker and the prompt with
    the numbered results to the history, asks for a summary with that
    history, and appends the summary as an assistant turn when there is
    one and the session is unmuted; when the summary fails the two
    entries stay. *)
Theorem web_search_summary W st c q cnt raw r rs :
  EXA_API_KEY W = true ->
  exa W (requests st) (c :: q) (countOrDefault cnt) = Resolved raw ->
  map normalizeResult (sliceTo (countOrDefault cnt) raw) = r :: rs ->
  let h2 :=
    conversationHistory (session st)
      ++ [mkTurn Assistant (searchedMarker (c :: q));
          mkTurn System
            (searchResultsPrompt (join newline (resultLines 0 (r :: rs))))] in
  let request := mkTurn System (SYSTEM_PROMPT W) :: h2 in
  let x := handleToolCall W
             (named "web_search" (ArgsObject (Some (c :: q)) cnt)) st in
  (exists rest,
      traceOf x
      = [ELog (LogToolCall (lit "web_search"));
         ELog (LogSearching (c :: q));
         ESearch (c :: q) (countOrDefault cnt);
         ELog (LogGotResults (List.length (r :: rs)));
         EGenerate request] ++ rest)
  /\ conversationHistory (finalSession x)
     = h2 ++ match completions W (S (requests st)) request with
             | Resolved m =>
                 if truthy (content m) && negb (isMuted (session st))
                 then [mkTurn Assistant (orEmpty (content m))]
                 else []
             | Rejected _ => []
             end.
Proof.
  intros Hkey Hexa Hres. destruct st as [[h p mu pa] n].
  cbn [requests session] in Hexa.
  web_search_run (mkSt (mkSession h p mu pa) n).
  rewrite Hkey. cbn [negb].
  destruct mu; wp_go; oracle_known.
  all: match goal with
       | H : map normalizeResult _ = _ |- _ =>
           rewrite Hres in H; try discriminate H; injection H as <- <-
       end.
  all: rewrite <- ?app_assoc in *; cbn [app] in *.
  all: repeat match goal with
       | H : completions _ _ _ = _ |- _ => rewrite H; clear H
       end.
  all: cbn [isMuted negb andb].
  all: repeat match goal with
       | H : truthy _ && _ = _ |- _ => rewrite H; clear H
       | H : truthy _ = _ |- _ => rewrite H; clear H
       end.
  all: rewrite ?andb_false_r, ?app_nil_r.
  all: split; [eexists; reflexivity | reflexivity].
Qed.

Lemma web_search_summary_witness :
  conversationHistory
    (finalSession
       (handleToolCall generousSearch
          (named "web_search" (ArgsObject (Some (lit "cafes")) (Some 2%Z)))
          (start initialSession)))
  = [mkTurn Assistant (searchedMarker (lit "cafes"));
     mkTurn System
       (searchResultsPrompt
          (join newline
             (resultLines 0
                [normalizeResult (page "1"); normalizeResult (page "2")])))].
Proof.
  pose proof (web_search_summary generousSearch (start initialSession)
                99%N (lit "afes") (Some 2%Z) sevenPages
                (normalizeResult (page "1")) [normalizeResult (page "2")]
                eq_refl eq_refl eq_refl) as [_ H].
  exact H.
Defined.

(** ** Exceptions of the tool executor *)

Ltac failed_speech_last :=
  match goal with
  | |- exists pre text, ?l = _ =>
      exists (removelast l); eexists; cbn [removelast]; reflexivity
  end.

(** X2. The only exception that leaves the tool executor is that of a
    failed speech synthesis: when a call throws, the session is unmuted
    and the last event of its trace is the failed synthesis. *)
Theorem handleToolCall_throws_after_failed_speech W tc st e :
  resultOf (handleToolCall W tc st) = Throw e ->
  isMuted (finalSession (handleToolCall W tc st)) = false
  /\ exists pre text,
      traceOf (handleToolCall W tc st) = pre ++ [ESpeakFailed text].
Proof.
  destruct st as [[h p mu pa] n]. destruct tc as [name args].
  by_wp (handleToolCall W (mkToolCall name args))
        (mkSt (mkSession h p mu pa) n).
  unfold handleToolCall, webSearch, parseArguments.
  destruct mu.
  all: wp_go.
  all: intros Hthrow; try discriminate Hthrow.
  all: split; [reflexivity | failed_speech_last].
Qed.

Lemma handleToolCall_throws_after_failed_speech_witness :
  isMuted
    (finalSession
       (handleToolCall failingSpeech (named "leave_meeting" ArgsAbsent)
          (start initialSession)))
  = false.
Proof.
  apply (handleToolCall_throws_after_failed_speech failingSpeech
           (named "leave_meeting" ArgsAbsent) (start initialSession)
           (lit "ElevenLabs error 500")).
  vm_compute. reflexivity.
Defined.

(** ** Tool calls in sequence *)

(** X8. The tool calls of an answer run one after the other in the
    order given; the first one that throws ends the run, and those after
    it are not executed. *)
Theorem tool_calls_run_in_order W tcs st :
  let x := forEach (handleToolCall W) tcs st in
  (resultOf x = Ok tt
   /\ toolRuns (traceOf x) = map functionName tcs)
  \/ (exists e done tc rest,
         tcs = done ++ tc :: rest
         /\ resultOf x = Throw e
         /\ toolRuns (traceOf x) = map functionName (done ++ [tc])).
Proof.
  cbv zeta. revert st.
  induction tcs as [|tc tcs IH]; intros st.
  - left. split; reflexivity.
  - pattern (resultOf (forEach (handleToolCall W) (tc :: tcs) st)),
            (finalState (forEach (handleToolCall W) (tc :: tcs) st)),
            (traceOf (forEach (handleToolCall W) (tc :: tcs) st)).
    apply wp_intro. cbn [forEach]. apply wp_bind.
    eapply wp_mono; [apply handleToolCall_step|]. cbv beta.
    intros r s1 t1 (_ & Hrun & _).
    destruct r as [[]|e].
    + specialize (IH s1).
      pattern (resultOf (forEach (handleToolCall W) tcs s1)),
              (finalState (forEach (handleToolCall W) tcs s1)),
              (traceOf (forEach (handleToolCall W) tcs s1)) in IH.
      eapply wp_mono; [exact IH|]. cbv beta.
      intros r s2 t2 [(Hr & Ht)|(e & done & tc' & rest & Htcs & Hr & Ht)].
      * left. split; auto. rewrite toolRuns_app, Hrun, Ht. reflexivity.
      * right. exists e, (tc :: done), tc', rest.
        split; [rewrite Htcs; reflexivity|]. split; auto.
        rewrite toolRuns_app, Hrun, Ht. reflexivity.
    + right. exists e, [], tc, tcs. repeat split; auto.
Qed.

(** X9. After [mute_self] the tool calls that follow, as long as none
    is [unmute_self], all run and none speaks. *)
Theorem mute_silences_following_tools W a tcs st :
  forallb notUnmute tcs = true ->
  let x := forEach (handleToolCall W) (named "mute_self" a :: tcs) st in
  resultOf x = Ok tt
  /\ isMuted (finalSession x) = true
  /\ existsb isSpeech (traceOf x) = false
  /\ toolRuns (traceOf x) = lit "mute_self" :: map functionName tcs.
Proof.
  intros Hn. destruct st as [[h p mu pa] n]. cbv zeta.
  by_wp (forEach (handleToolCall W) (named "mute_self" a :: tcs))
        (mkSt (mkSession h p mu pa) n).
  cbn [forEach]. apply wp_bind. dispatch.
  destruct mu; wp_go.
  all: eapply wp_mono; [apply forEach_tools_muted; [reflexivity | exact Hn]|].
  all: cbv beta; intros r s t (-> & Hm & Hs & Hr & _).
  all: repeat split; auto.
  all: cbn [existsb isSpeech orb toolRuns]; try rewrite Hs; try rewrite Hr;
    reflexivity.
Qed.

Lemma mute_silences_following_tools_witness :
  existsb isSpeech
    (traceOf
       (forEach (handleToolCall quietWorld)
          [named "mute_self" ArgsAbsent; named "pause_listening" ArgsAbsent]
          (start initialSession)))
  = false.
Proof.
  apply (mute_silences_following_tools quietWorld ArgsAbsent
           [named "pause_listening" ArgsAbsent] (start initialSession)).
  vm_compute. reflexivity.
Defined.

(** X10. [mute_self] followed by [unmute_self] on an unmuted session
    gives the state back as it was, emits MUTED then UNMUTED and speaks
    nothing. *)
Theorem mute_unmute_round_trip W a b st :
  isMuted (session st) = false ->
  forEach (handleToolCall W) [named "mute_self" a; named "unmute_self" b] st
  = (Ok tt, st,
     [ELog (LogToolCall (lit "mute_self")); ELog LogMuted; ESignal MUTED;
      ELog (LogToolCall (lit "unmute_self")); ELog LogUnmuted;
      ESignal UNMUTED]).
Proof.
  destruct st as [[h p mu pa] n]. cbn [session isMuted]. intros ->.
  apply wp_eq. cbn [forEach]. apply wp_bind. dispatch. wp_go.
  dispatch. wp_go. auto.
Qed.

Lemma mute_unmute_round_trip_witness :
  finalState
    (forEach (handleToolCall quietWorld)
       [named "mute_self" ArgsAbsent; named "unmute_self" ArgsAbsent]
       (start initialSession))
  = start initialSession.
Proof.
  rewrite (mute_unmute_round_trip quietWorld ArgsAbsent ArgsAbsent
             (start initialSession) eq_refl).
  reflexivity.
Defined.

(** ** Replies without tool calls *)

Lemma truncateHistory_push transcript s :
  truncateHistory (push (mkTurn User transcript) s)
  = set_history (historyWith transcript s) s.
Proof.
  destruct s as [h p mu pa]. unfold historyWith, truncateHistory.
  cbn [push set_history conversationHistory isProcessingResponse isMuted
       isPaused].
  destruct (20 <? _); reflexivity.
Qed.

Lemma historyWith_set_processing transcript b s :
  historyWith transcript (set_processing b s) = historyWith transcript s.
Proof. exact (historyWith_processing transcript b s). Qed.

(** X11. An answer with content and without tool calls, on an idle and
    unmuted session: the content is appended as an assistant turn after
    the user turn and then spoken; when the synthesis fails the turn
    stays in the history and the error is logged. *)
Theorem spoken_reply_recorded W st transcript m c cs :
  isProcessingResponse (session st) = false ->
  isMuted (session st) = false ->
  completions W (requests st) (firstRequest W transcript (session st))
  = Resolved m ->
  tool_calls m = [] ->
  content m = Some (c :: cs) ->
  handleUserSpeech W transcript st
  = (Ok tt,
     mkSt (set_history
             (historyWith transcript (session st)
                ++ [mkTurn Assistant (c :: cs)])
             (session st))
          (S (S (requests st))),
     EGenerate (firstRequest W transcript (session st))
       :: replyEvents W (mkSt (session st) (S (requests st))) (c :: cs)).
Proof.
  intros Hp Hm E Htc Hc. apply wp_eq.
  unfold handleUserSpeech. apply wp_bind, wp_getSession. cbv beta iota.
  rewrite Hp. apply wp_bind, wp_modify. cbv beta iota.
  apply wp_tryFinally, wp_tryCatch. unfold processUtterance.
  apply wp_bind, wp_modify. cbv beta iota.
  apply wp_bind, wp_modify. cbv beta iota.
  cbn [session requests]. rewrite truncateHistory_push.
  rewrite historyWith_set_processing.
  apply wp_bind, wp_generate. cbv zeta.
  destruct st as [[h p mu pa] n]. cbn [session isMuted isProcessingResponse] in *.
  subst p mu. unfold firstRequest in E.
  cbn [session requests set_history set_processing conversationHistory
       isProcessingResponse isMuted isPaused] in *.
  rewrite E, Htc, Hc. cbn [forEach orEmpty truthy andb]. unfold replyEvents.
  wp_go; try discriminate.
  all: repeat split; reflexivity.
Qed.

Lemma spoken_reply_recorded_witness :
  conversationHistory
    (finalSession
       (handleUserSpeech (replying "Hi." []) (lit "hello")
          (start initialSession)))
  = [mkTurn User (lit "hello"); mkTurn Assistant (lit "Hi.")].
Proof.
  rewrite (spoken_reply_recorded (replying "Hi." []) (start initialSession)
             (lit "hello") (mkMessage (Some (lit "Hi.")) [])
             72%N [105%N; 46%N] eq_refl eq_refl eq_refl eq_refl eq_refl).
  reflexivity.
Defined.

(** X12. An answer without tool calls whose content is absent or
    empty, or that arrives on a muted session, leaves the user turn as
    the only change: one request, nothing spoken. *)
Theorem silent_cycle W st transcript m :
  isProcessingResponse (session st) = false ->
  completions W (requests st) (firstRequest W transcript (session st))
  = Resolved m ->
  tool_calls m = [] ->
  truthy (content m) && negb (isMuted (session st)) = false ->
  handleUserSpeech W transcript st
  = (Ok tt,
     mkSt (set_history (historyWith transcript (session st)) (session st))
          (S (requests st)),
     [EGenerate (firstRequest W transcript (session st))]).
Proof.
  intros Hp E Htc Hc. apply wp_eq.
  unfold handleUserSpeech. apply wp_bind, wp_getSession. cbv beta iota.
  rewrite Hp. apply wp_bind, wp_modify. cbv beta iota.
  apply wp_tryFinally, wp_tryCatch. unfold processUtterance.
  apply wp_bind, wp_modify. cbv beta iota.
  apply wp_bind, wp_modify. cbv beta iota.
  cbn [session requests]. rewrite truncateHistory_push.
  rewrite historyWith_set_processing.
  apply wp_bind, wp_generate. cbv zeta.
  destruct st as [[h p mu pa] n].
  unfold firstRequest in E.
  cbn [session requests set_history set_processing conversationHistory
       isProcessingResponse isMuted isPaused] in *.
  subst p. rewrite E, Htc. cbn [forEach].
  apply wp_bind, wp_ret. cbv beta iota.
  apply wp_bind, wp_getSession. cbv beta iota.
  cbn [session isMuted set_history set_processing]. rewrite Hc.
  wp_go. repeat split; reflexivity.
Qed.

Lemma silent_cycle_witness :
  handleUserSpeech quietWorld (lit "hello") (start initialSession)
  = (Ok tt,
     mkSt (mkSession [mkTurn User (lit "hello")] false false false) 1,
     [EGenerate [mkTurn System (lit "persona"); mkTurn User (lit "hello")]]).
Proof.
  apply (silent_cycle quietWorld (start initialSession) (lit "hello")
           (mkMessage None []) eq_refl eq_refl eq_refl eq_refl).
Defined.

(** ** When a transcript starts a cycle *)

Lemma heard_trim transcript :
  heard transcript = true ->
  exists t, transcript = Some t /\ trim t <> [].
Proof.
  unfold heard. destruct transcript as [t|]; [|discriminate].
  intros H. apply andb_true_iff in H. destruct H as [_ H]. simpl in H.
  exists t. split; auto. intros E. rewrite E in H. discriminate.
Qed.

(** X13. A completed transcription starts a generation exactly when
    its transcript holds something else than white space, the session is
    not paused and no cycle is in flight. *)
Theorem transcript_starts_cycle_iff W st transcript :
  existsb isGenerate
    (traceOf (onMessage W (TranscriptionCompleted transcript) st)) = true
  <-> heard transcript = true
      /\ isPaused (session st) = false
      /\ isProcessingResponse (session st) = false.
Proof.
  split.
  - unfold onMessage, heard. unfold bind at 1. unfold getSession at 1.
    cbv beta iota.
    destruct (truthy transcript && truthy (option_map trim transcript));
      [|intros H; discriminate H].
    destruct (isPaused (session st)); [intros H; discriminate H|].
    cbn [andb negb].
    destruct (isProcessingResponse (session st)) eqn:Hp; [|auto].
    unfold bind at 1. unfold log at 1, emit at 1. cbv beta iota.
    unfold handleUserSpeech. unfold bind at 1. unfold getSession at 1.
    cbv beta iota. rewrite Hp. intros H. discriminate H.
  - intros (Hh & Hpa & Hp).
    destruct (heard_trim transcript Hh) as (t & -> & Ht).
    destruct (heard_cycle W t st Hpa Hp Ht) as (-> & _).
    pose proof (cycleRun_outcome W t st) as (_ & _ & (rest & ->) & _).
    reflexivity.
Qed.

(** ** The event loop *)

Lemma wp_of_run {A} (m : M A) (Q : post A) st :
  Q (resultOf (m st)) (finalState (m st)) (traceOf (m st)) -> wp m Q st.
Proof. exact (fun H => H). Qed.

Lemma onMessage_idle W ev st :
  isProcessingResponse (session st) = false ->
  wp (onMessage W ev)
     (fun r s _ => r = Ok tt /\ isProcessingResponse (session s) = false) st.
Proof.
  intros Hp. destruct ev; unfold onMessage.
  1-4, 6-7: wp_go; auto.
  apply wp_bind, wp_getSession. cbv beta iota.
  destruct (truthy transcript && truthy (option_map trim transcript)
            && negb (isPaused (session st))).
  - apply wp_bind, wp_log. cbv beta iota. apply wp_of_run.
    rewrite (handleUserSpeech_idle W _ st Hp).
    pose proof (cycleRun_outcome W (orEmpty transcript) st) as (Hr & _).
    split; [exact Hr | reflexivity].
  - apply wp_ret. auto.
Qed.

(** X14. Started idle, the handler of the stream events never throws
    and is idle again after every sequence of events. *)
Theorem event_loop_returns_idle W evs st :
  isProcessingResponse (session st) = false ->
  let x := onMessages W evs st in
  resultOf x = Ok tt /\ isProcessingResponse (finalSession x) = false.
Proof.
  cbv zeta. revert st. induction evs as [|ev evs IH]; intros st Hp.
  - split; [reflexivity | exact Hp].
  - unfold finalSession.
    pattern (resultOf (onMessages W (ev :: evs) st)),
            (finalState (onMessages W (ev :: evs) st)),
            (traceOf (onMessages W (ev :: evs) st)).
    apply wp_intro. unfold onMessages. cbn [forEach]. apply wp_bind.
    eapply wp_mono; [apply (onMessage_idle W ev st Hp)|]. cbv beta.
    intros r s1 t1 (-> & Hp1).
    apply wp_of_run. apply (IH s1 Hp1).
Qed.

Lemma event_loop_returns_idle_witness :
  isProcessingResponse
    (finalSession
       (onMessages (replying "Hi." [])
          [SessionUpdated; TranscriptionCompleted (Some (lit "hello"));
           ErrorEvent]
          (start initialSession)))
  = false.
Proof.
  apply (event_loop_returns_idle (replying "Hi." [])
           [SessionUpdated; TranscriptionCompleted (Some (lit "hello"));
            ErrorEvent]
           (start initialSession) eq_refl).
Defined.

Lemma onMessage_paused W ev st :
  isPaused (session st) = true ->
  wp (onMessage W ev)
     (fun r s t => r = Ok tt /\ s = st /\ forallb isHousekeeping t = true) st.
Proof.
  intros Hp. destruct ev; unfold onMessage.
  1-2, 6-7: wp_go; auto.
  - apply wp_bind, wp_getSession. cbv beta iota. rewrite Hp.
    apply wp_when. cbn [negb]. auto.
  - apply wp_bind, wp_getSession. cbv beta iota. rewrite Hp.
    apply wp_when. cbn [negb]. auto.
  - apply wp_bind, wp_getSession. cbv beta iota. rewrite Hp.
    rewrite andb_false_r. apply wp_ret. auto.
Qed.

(** X15. A paused session stays as it is under every sequence of
    stream events: only the session and error lines are logged and the
    capture started, so no utterance can resume it. *)
Theorem paused_session_is_deaf W evs st :
  isPaused (session st) = true ->
  let x := onMessages W evs st in
  resultOf x = Ok tt /\ finalState x = st
  /\ forallb isHousekeeping (traceOf x) = true.
Proof.
  intros Hp. cbv zeta. induction evs as [|ev evs IH].
  - repeat split.
  - pattern (resultOf (onMessages W (ev :: evs) st)),
            (finalState (onMessages W (ev :: evs) st)),
            (traceOf (onMessages W (ev :: evs) st)).
    apply wp_intro. unfold onMessages. cbn [forEach]. apply wp_bind.
    eapply wp_mono; [apply (onMessage_paused W ev st Hp)|]. cbv beta.
    intros r s1 t1 (-> & -> & Ht).
    apply wp_of_run. destruct IH as (Hr & Hs & Hq).
    repeat split; auto. rewrite forallb_app, Ht. exact Hq.
Qed.

Lemma paused_session_is_deaf_witness :
  finalState
    (onMessages (replying "Hi." [named "resume_listening" ArgsAbsent])
       [SpeechStarted; TranscriptionCompleted (Some (lit "start listening"));
        SpeechStopped]
       (start (mkSession [] false false true)))
  = start (mkSession [] false false true).
Proof.
  apply (paused_session_is_deaf
           (replying "Hi." [named "resume_listening" ArgsAbsent])
           [SpeechStarted;
            TranscriptionCompleted (Some (lit "start listening"));
            SpeechStopped]
           (start (mkSession [] false false true)) eq_refl).
Defined.

(** ** More on [expandAbbreviations] *)

Lemma expandAbbreviations_words (text : jsstring) :
  expandAbbreviations text = expandWords abbreviationTable [] text.
Proof.
  rewrite expandAbbreviations_expandSpec. unfold expandSpec.
  apply (@expandWith_expandWords abbreviationTable). reflexivity.
Qed.

Section WordPass.
Variable tbl : list (jsstring * jsstring).
Hypothesis tbl_good : goodTable tbl = true.

Lemma isWord_rev (w : jsstring) : isWord (rev w) = isWord w.
Proof. unfold isWord. apply forallb_rev. Qed.

Lemma findToken_in w r :
  findToken tbl w = Some r -> In (w, r) tbl.
Proof.
  clear tbl_good. induction tbl as [|[t r'] l IH]; simpl; [discriminate|].
  destruct (jsstring_eqb t w) eqn:E.
  - apply jsstring_eqb_eq in E. intros H; injection H as <-. subst. auto.
  - auto.
Qed.

Lemma substWord_stable w next :
  stableTable tbl = true ->
  substWord tbl (substWord tbl w next) next = substWord tbl w next.
Proof.
  intros Hs. unfold substWord. destruct (boundaryOpt next); [|reflexivity].
  destruct (findToken tbl w) as [r|] eqn:E.
  - apply findToken_in in E.
    unfold stableTable in Hs. rewrite forallb_forall in Hs.
    specialize (Hs _ E). simpl in Hs.
    destruct (findToken tbl r); [discriminate | reflexivity].
  - rewrite E. reflexivity.
Qed.

Lemma expandWords_idempotent :
  stableTable tbl = true ->
  forall s acc,
    isWord acc = true ->
    expandWords tbl [] (expandWords tbl acc s) = expandWords tbl acc s.
Proof.
  intros Hs. induction s as [|c s IH]; intros acc Hacc.
  - cbn [expandWords].
    rewrite <- (app_nil_r (substWord tbl (rev acc) None)) at 1.
    rewrite expandWords_app_word.
    + cbn [expandWords]. rewrite app_nil_r, rev_involutive.
      apply substWord_stable. exact Hs.
    + apply substWord_word; auto. rewrite isWord_rev. exact Hacc.
  - cbn [expandWords]. destruct (isWordChar c) eqn:Hc.
    + apply IH. simpl. rewrite Hc. exact Hacc.
    + rewrite expandWords_app_word.
      * cbn [expandWords]. rewrite Hc, app_nil_r, rev_involutive.
        rewrite substWord_stable by exact Hs. rewrite (IH []); reflexivity.
      * apply substWord_word; auto. rewrite isWord_rev. exact Hacc.
Qed.

Lemma filter_word (w : jsstring) :
  isWord w = true -> filter notWordChar w = [].
Proof.
  induction w as [|c w IH]; simpl; auto. intros H.
  apply andb_true_iff in H. destruct H as [Hc Hw].
  assert (notWordChar c = false) as ->
      by (unfold notWordChar; rewrite Hc; reflexivity).
  auto.
Qed.

Lemma expandWords_separators :
  forall s acc,
    isWord acc = true ->
    filter notWordChar (expandWords tbl acc s) = filter notWordChar s.
Proof.
  induction s as [|c s IH]; intros acc Hacc; cbn [expandWords].
  - apply filter_word. apply substWord_word; auto.
    rewrite isWord_rev. exact Hacc.
  - destruct (isWordChar c) eqn:Hc.
    + assert (notWordChar c = false) as N
          by (unfold notWordChar; rewrite Hc; reflexivity).
      rewrite IH by (simpl; rewrite Hc; exact Hacc).
      simpl. rewrite N. reflexivity.
    + assert (notWordChar c = true) as N
          by (unfold notWordChar; rewrite Hc; reflexivity).
      rewrite filter_app, filter_word.
      * simpl. rewrite N, (IH []); reflexivity.
      * apply substWord_word; auto. rewrite isWord_rev. exact Hacc.
Qed.

Lemma substWord_length w next :
  growingTable tbl = true ->
  List.length w <= List.length (substWord tbl w next).
Proof.
  intros Hg. unfold substWord. destruct (boundaryOpt next); auto.
  destruct (findToken tbl w) as [r|] eqn:E; auto.
  apply findToken_in in E. unfold growingTable in Hg.
  rewrite forallb_forall in Hg. specialize (Hg _ E). simpl in Hg.
  apply Nat.leb_le in Hg. exact Hg.
Qed.

Lemma expandWords_length :
  growingTable tbl = true ->
  forall s acc,
    List.length acc + List.length s <= List.length (expandWords tbl acc s).
Proof.
  intros Hg. induction s as [|c s IH]; intros acc; cbn [expandWords].
  - pose proof (substWord_length (rev acc) None Hg) as H.
    rewrite length_rev in H. simpl. lia.
  - destruct (isWordChar c).
    + specialize (IH (c :: acc)). simpl in *. lia.
    + pose proof (substWord_length (rev acc) (Some c) Hg) as H.
      rewrite length_rev in H. specialize (IH []).
      rewrite length_app. simpl in *. lia.
Qed.
End WordPass.

(** X16. Expanding twice is expanding once. *)
Theorem expandAbbreviations_idempotent (text : jsstring) :
  expandAbbreviations (expandAbbreviations text) = expandAbbreviations text.
Proof.
  rewrite !expandAbbreviations_words.
  apply expandWords_idempotent; reflexivity.
Qed.

(** X17. The code units that are not word characters come out as they
    went in, in order, and the text never gets shorter. *)
Theorem expandAbbreviations_keeps_separators (text : jsstring) :
  filter notWordChar (expandAbbreviations text) = filter notWordChar text
  /\ List.length text <= List.length (expandAbbreviations text).
Proof.
  rewrite expandAbbreviations_words. split.
  - apply expandWords_separators; reflexivity.
  - apply (expandWords_length abbreviationTable eq_refl text []).
Qed.

Lemma findToken_initial (tbl : list (jsstring * jsstring)) c w :
  initialIn tbl c = false -> findToken tbl (c :: w) = None.
Proof.
  induction tbl as [|[t r] l IH]; simpl; auto.
  intros H. apply orb_false_iff in H. destruct H as [Ht Hl].
  destruct t as [|d t]; simpl; auto.
  rewrite Ht. simpl. auto.
Qed.

Lemma substWord_no_initial (tbl : list (jsstring * jsstring)) w next :
  goodTable tbl = true ->
  forallb (fun c => negb (initialIn tbl c)) w = true ->
  substWord tbl w next = w.
Proof.
  intros G H. unfold substWord. destruct (boundaryOpt next); auto.
  destruct w as [|c w].
  - rewrite (@findToken_nil tbl G). reflexivity.
  - simpl in H. apply andb_true_iff in H. destruct H as [Hc _].
    apply negb_true_iff in Hc. rewrite (findToken_initial _ _ _ Hc).
    reflexivity.
Qed.

Lemma expandWords_no_initial (tbl : list (jsstring * jsstring)) :
  goodTable tbl = true ->
  forall s acc,
    forallb (fun c => negb (initialIn tbl c)) acc = true ->
    forallb (fun c => negb (initialIn tbl c)) s = true ->
    expandWords tbl acc s = rev acc ++ s.
Proof.
  intros G. induction s as [|c s IH]; intros acc Ha Hs; cbn [expandWords].
  - rewrite app_nil_r. apply substWord_no_initial; auto.
    rewrite forallb_rev. exact Ha.
  - simpl in Hs. apply andb_true_iff in Hs. destruct Hs as [Hc Hs].
    destruct (isWordChar c).
    + rewrite IH; auto.
      * simpl. rewrite <- app_assoc. reflexivity.
      * simpl. rewrite Hc. exact Ha.
    + rewrite substWord_no_initial, (IH []); auto.
      rewrite forallb_rev. exact Ha.
Qed.

(** X18. A text without any of the code units S, A, B, D, R, L, C and
    P is returned unchanged. *)
Theorem expandAbbreviations_without_initials (text : jsstring) :
  forallb (fun c => negb (tokenInitial c)) text = true ->
  expandAbbreviations text = text.
Proof.
  intros H. rewrite expandAbbreviations_words.
  apply (expandWords_no_initial abbreviationTable eq_refl text [] eq_refl H).
Qed.

Lemma expandAbbreviations_without_initials_witness :
  expandAbbreviations (lit "turn left at the lights, then stop")
  = lit "turn left at the lights, then stop".
Proof.
  apply expandAbbreviations_without_initials. vm_compute. reflexivity.
Defined.

(** ** The number of results of a search *)

(** X19. The results of [searchExa] are the first entries of the
    answer, normalised, in order: [count] of them at most when [count] is
    not negative, and all but the last [-count] when it is negative. *)
Theorem searchExa_result_count W query count st raw :
  exa W (requests st) query count = Resolved raw ->
  exists results,
    resultOf (searchExa W query count st) = Ok results
    /\ (exists dropped,
           map normalizeResult raw = results ++ dropped)
    /\ Z.of_nat (List.length results)
       = if (count <? 0)%Z
         then Z.max (Z.of_nat (List.length raw) + count) 0
         else Z.min count (Z.of_nat (List.length raw)).
Proof.
  intros E.
  pattern (resultOf (searchExa W query count st)),
          (finalState (searchExa W query count st)),
          (traceOf (searchExa W query count st)).
  apply wp_intro, wp_searchExa. rewrite E.
  exists (map normalizeResult (sliceTo count raw)).
  split; [reflexivity|]. split.
  - unfold sliceTo.
    destruct (count <? 0)%Z.
    + exists (map normalizeResult
                (skipn (Z.to_nat (Z.max (Z.of_nat (List.length raw) + count) 0))
                       raw)).
      rewrite <- map_app, firstn_skipn. reflexivity.
    + exists (map normalizeResult (skipn (Z.to_nat count) raw)).
      rewrite <- map_app, firstn_skipn. reflexivity.
  - rewrite length_map. unfold sliceTo.
    destruct (count <? 0)%Z eqn:C.
    + apply Z.ltb_lt in C. rewrite length_firstn. lia.
    + apply Z.ltb_ge in C. rewrite length_firstn. lia.
Qed.

Lemma searchExa_result_count_witness :
  exists results,
    resultOf (searchExa generousSearch (lit "cafes") (-2)
                (start initialSession)) = Ok results
    /\ (exists dropped, map normalizeResult sevenPages = results ++ dropped)
    /\ Z.of_nat (List.length results) = 5%Z.
Proof.
  apply (searchExa_result_count generousSearch (lit "cafes") (-2)
           (start initialSession) sevenPages eq_refl).
Defined.

(** ** Properties of the pending searches *)

Lemma mapGet_In {V} (k : jsstring) (m : list (jsstring * V)) v :
  mapGet k m = Some v -> In (k, v) m.
Proof.
  induction m as [|[k' v'] m IH]; simpl; [discriminate|].
  destruct (jsstring_eqb k' k) eqn:E.
  - apply jsstring_eqb_eq in E. intros H; injection H as ->. subst. auto.
  - auto.
Qed.

Lemma mapGet_mapSet {V} (k : jsstring) (v : V) (m : list (jsstring * V)) :
  mapGet k (mapSet k v m) = Some v.
Proof.
  induction m as [|[k' v'] m IH]; simpl.
  - rewrite jsstring_eqb_refl. reflexivity.
  - destruct (jsstring_eqb k' k) eqn:E; simpl; rewrite E; auto.
Qed.

Lemma mapGet_mapDelete {V} (k : jsstring) (m : list (jsstring * V)) :
  mapGet k (mapDelete k m) = None.
Proof.
  induction m as [|[k' v'] m IH]; simpl; auto.
  destruct (jsstring_eqb k' k) eqn:E; simpl; auto. rewrite E. auto.
Qed.

Lemma In_mapDelete {V} (k k' : jsstring) (e : V) (m : list (jsstring * V)) :
  In (k', e) (mapDelete k m) <-> In (k', e) m /\ k' <> k.
Proof.
  unfold mapDelete. rewrite filter_In. simpl. rewrite negb_true_iff.
  split; intros [H1 H2]; split; auto.
  - intros ->. rewrite jsstring_eqb_refl in H2. discriminate.
  - destruct (jsstring_eqb k' k) eqn:E; auto.
    apply jsstring_eqb_eq in E. contradiction.
Qed.

Lemma In_mapSet {V} (k k' : jsstring) (v e : V) (m : list (jsstring * V)) :
  In (k', e) (mapSet k v m) -> (k' = k /\ e = v) \/ In (k', e) m.
Proof.
  induction m as [|[k1 v1] m IH]; simpl.
  - intros [H|[]]. injection H as <- <-. auto.
  - destruct (jsstring_eqb k1 k) eqn:E; simpl.
    + apply jsstring_eqb_eq in E. subst k1.
      intros [H|H]; [injection H as <- <-; auto | auto].
    + intros [H|H]; auto. destruct (IH H); auto.
Qed.

Lemma keys_mapSet {V} (k : jsstring) (v : V) (m : list (jsstring * V)) :
  NoDup (map fst m) -> NoDup (map fst (mapSet k v m)).
Proof.
  induction m as [|[k1 v1] m IH]; simpl; intros H.
  - constructor; [intros [] | constructor].
  - inversion H as [|? ? Hn Hd]; subst.
    destruct (jsstring_eqb k1 k) eqn:E; simpl.
    + constructor; assumption.
    + constructor; [|apply IH; assumption].
      intros Hin. apply in_map_iff in Hin. destruct Hin as ([k2 e] & Hk & Hin).
      simpl in Hk. subst k2. apply In_mapSet in Hin.
      destruct Hin as [[-> _]|Hin].
      * rewrite jsstring_eqb_refl in E. discriminate.
      * apply Hn. apply in_map_iff. exists (k1, e). auto.
Qed.

Lemma NoDup_map_filter {A B} (f : A -> B) (g : A -> bool) (l : list A) :
  NoDup (map f l) -> NoDup (map f (filter g l)).
Proof.
  induction l as [|a l IH]; simpl; intros H; [constructor|].
  inversion H as [|? ? Hn Hd]; subst.
  destruct (g a); simpl; auto. constructor; auto.
  intros Hin. apply Hn. apply in_map_iff in Hin.
  destruct Hin as (b & Hb & Hin). apply filter_In in Hin.
  apply in_map_iff. exists b. tauto.
Qed.

Lemma NoDup_map_inj {A B} (f : A -> B) (l : list A) a b :
  NoDup (map f l) -> In a l -> In b l -> f a = f b -> a = b.
Proof.
  induction l as [|c l IH]; simpl; intros H Ha Hb E; [contradiction|].
  inversion H as [|? ? Hn Hd]; subst.
  destruct Ha as [->|Ha], Hb as [->|Hb]; auto.
  - exfalso. apply Hn. rewrite E. apply in_map. exact Hb.
  - exfalso. apply Hn. rewrite <- E. apply in_map. exact Ha.
Qed.

Lemma NoDup_snoc {A} (l : list A) a :
  NoDup l -> ~ In a l -> NoDup (l ++ [a]).
Proof.
  induction l as [|b l IH]; simpl; intros H Hn.
  - constructor; [intros [] | constructor].
  - inversion H; subst. constructor.
    + rewrite in_app_iff. simpl. intros [?|[?|[]]]; [contradiction|].
      subst. apply Hn. auto.
    + apply IH; auto.
Qed.

Lemma In_clearTimer t tm l :
  In tm (clearTimer t l) <-> In tm l /\ timerOf tm <> t.
Proof.
  unfold clearTimer. rewrite filter_In, negb_true_iff, Nat.eqb_neq. tauto.
Qed.

Lemma findTimer_Some t l tm :
  findTimer t l = Some tm -> In tm l /\ timerOf tm = t.
Proof.
  unfold findTimer. intros H. apply find_some in H.
  rewrite Nat.eqb_eq in H. exact H.
Qed.

Lemma findTimer_clearTimer t l : findTimer t (clearTimer t l) = None.
Proof.
  unfold findTimer, clearTimer.
  induction l as [|tm l IH]; simpl; auto.
  destruct (Nat.eqb (timerOf tm) t) eqn:E; simpl; auto. rewrite E. auto.
Qed.

(** Settling the promise of the active timer [tm]: the timer goes, and
    so does the entry of its search. *)
Lemma searchesInv_settle s done tm :
  searchesInv s done ->
  In tm (timers s) ->
  searchesInv
    (mkSearches (mapDelete (timerSearch tm) (pendingSearches s))
                (clearTimer (timerOf tm) (timers s))
                (promisesCreated s) (timersCreated s))
    (done ++ [timerPromise tm]).
Proof.
  intros (I1 & I2 & I3 & I4 & I5 & I6 & I7) Htm.
  unfold searchesInv. cbn [pendingSearches timers promisesCreated timersCreated].
  split; [apply NoDup_map_filter; exact I1|].
  split; [apply NoDup_map_filter; exact I2|].
  split; [apply NoDup_map_filter; exact I3|].
  split; [|split; [|split]].
  - intros k' e Hin. apply In_mapDelete in Hin. destruct Hin as [Hin Hne].
    destruct (I4 _ _ Hin) as (d & Hd). exists d.
    apply In_clearTimer. split; auto. cbn [timerOf].
    intros Heq.
    assert (mkTimer (pendingTimeout e) k' (pendingPromise e) d = tm) as E
        by (apply (NoDup_map_inj timerOf (timers s)); auto).
    subst tm. apply Hne. reflexivity.
  - intros tm' Hin. apply In_clearTimer in Hin. destruct Hin as [Hin Hne].
    destruct (I5 _ Hin) as (H1 & H2 & H3). repeat split; auto.
    rewrite in_app_iff. simpl. intros [H|[H|[]]]; [contradiction|].
    apply Hne. f_equal.
    apply (NoDup_map_inj timerPromise (timers s)); auto.
  - apply NoDup_snoc; auto. apply (I5 _ Htm).
  - intros p. rewrite in_app_iff. simpl. intros [H|[<-|[]]]; auto.
    apply (I5 _ Htm).
Qed.

Lemma searchesInv_wait s done k d :
  searchesInv s done ->
  searchesInv (snd (waitForSearchResults k d s)) done.
Proof.
  intros (I1 & I2 & I3 & I4 & I5 & I6 & I7).
  unfold waitForSearchResults, searchesInv.
  cbn [snd pendingSearches timers promisesCreated timersCreated].
  split; [apply keys_mapSet; exact I1|].
  split; [|split; [|split; [|split; [|split]]]].
  - rewrite map_app. apply NoDup_snoc; auto. cbn [map timerPromise].
    intros Hin. apply in_map_iff in Hin. destruct Hin as (tm & E & Hin).
    destruct (I5 _ Hin) as (_ & H & _). lia.
  - rewrite map_app. apply NoDup_snoc; auto. cbn [map timerOf].
    intros Hin. apply in_map_iff in Hin. destruct Hin as (tm & E & Hin).
    destruct (I5 _ Hin) as (_ & _ & H). lia.
  - intros k' e Hin. apply In_mapSet in Hin.
    destruct Hin as [[-> ->]|Hin].
    + exists d. apply in_or_app. right. left. reflexivity.
    + destruct (I4 _ _ Hin) as (d' & Hd). exists d'.
      apply in_or_app. auto.
  - intros tm Hin. apply in_app_or in Hin. destruct Hin as [Hin|[<-|[]]].
    + destruct (I5 _ Hin) as (H1 & H2 & H3). repeat split; auto.
    + cbn [timerPromise timerOf]. repeat split; auto.
      intros H. apply I7 in H. lia.
  - exact I6.
  - intros p H. apply I7 in H. lia.
Qed.

Lemma settled_app (a b : list settlement) :
  settled (a ++ b) = settled a ++ settled b.
Proof.
  induction a as [|[] a IH]; simpl; rewrite ?IH; reflexivity.
Qed.

Lemma searchesInv_step ev s done :
  searchesInv s done ->
  searchesInv (fst (searchStep ev s)) (done ++ settled (snd (searchStep ev s))).
Proof.
  intros I. destruct ev as [k d|l|t]; cbn [searchStep].
  - cbn [fst snd settled]. rewrite app_nil_r. apply searchesInv_wait. exact I.
  - unfold onLine.
    destruct l as [|[ty|] [[|c i]|] res];
      cbn [fst snd settled]; rewrite ?app_nil_r; auto.
    destruct (jsstring_eqb ty (lit "search_results"));
      cbn [fst snd settled]; rewrite ?app_nil_r; auto.
    destruct (mapGet (c :: i) (pendingSearches s)) as [e|] eqn:G;
      cbn [fst snd settled]; rewrite ?app_nil_r; auto.
    apply mapGet_In in G.
    pose proof I as (_ & _ & _ & I4 & _).
    destruct (I4 _ _ G) as (d & Hd).
    apply (searchesInv_settle s done
             (mkTimer (pendingTimeout e) (c :: i) (pendingPromise e) d) I Hd).
  - unfold onTimeout.
    destruct (findTimer t (timers s)) as [tm|] eqn:F;
      cbn [fst snd settled]; rewrite ?app_nil_r; auto.
    apply findTimer_Some in F. destruct F as [Hin <-].
    apply searchesInv_settle; assumption.
Qed.

Lemma searchesInv_run evs :
  forall s done,
    searchesInv s done ->
    searchesInv (fst (searchRun evs s))
                (done ++ settled (snd (searchRun evs s))).
Proof.
  induction evs as [|ev evs IH]; intros s done I.
  - cbn [searchRun fst snd settled]. rewrite app_nil_r. exact I.
  - cbn [searchRun].
    pose proof (searchesInv_step ev s done I) as I1.
    destruct (searchStep ev s) as [s1 t1]. cbn [fst snd] in I1.
    pose proof (IH s1 _ I1) as I2.
    destruct (searchRun evs s1) as [s2 t2]. cbn [fst snd] in *.
    rewrite settled_app, app_assoc. exact I2.
Qed.

Lemma searchesInv_start : searchesInv noSearches [].
Proof.
  unfold searchesInv, noSearches. simpl.
  repeat split; try constructor; try contradiction.
Qed.

(** X20. Over any sequence of waits, lines and timer firings, no
    promise of [waitForSearchResults] is settled twice: not resolved
    twice, not rejected twice and not both. *)
Theorem search_promises_settle_once (evs : list searchEvent) :
  NoDup (settled (snd (searchRun evs noSearches))).
Proof.
  pose proof (searchesInv_run evs noSearches [] searchesInv_start)
    as (_ & _ & _ & _ & _ & H & _).
  exact H.
Qed.

(** X21. Results that arrive for a search that is waited for under an
    identifier that is not empty resolve its promise, with the empty list
    when the line carries none; the search is then no longer pending, its
    timer does not fire any more, and a second line with the same
    identifier is ignored.  Under the empty identifier the line is
    ignored, [data.id] being falsy. *)
Theorem search_results_resolve_waiter s k d results :
  let p := fst (waitForSearchResults k d s) in
  let s1 := snd (waitForSearchResults k d s) in
  let line := JsonLine (Some (lit "search_results")) (Some k) results in
  let s2 := fst (onLine line s1) in
  (k <> [] ->
   snd (onLine line s1)
   = [SResolve p (match results with Some r => r | None => [] end);
      SReceived k]
   /\ mapGet k (pendingSearches s2) = None
   /\ onTimeout (timersCreated s) s2 = (s2, [])
   /\ onLine line s2 = (s2, []))
  /\ (k = [] -> onLine line s1 = (s1, [])).
Proof.
  cbv zeta. split; [|intros ->; reflexivity].
  intros Hk. destruct k as [|c i]; [congruence|].
  unfold waitForSearchResults, onLine.
  cbn [fst snd pendingSearches timers promisesCreated timersCreated].
  replace (jsstring_eqb (lit "search_results") (lit "search_results"))
    with true by (vm_compute; reflexivity).
  rewrite mapGet_mapSet.
  cbn [fst snd pendingSearches timers promisesCreated timersCreated
       pendingPromise pendingTimeout].
  split; [reflexivity|].
  split; [apply mapGet_mapDelete|].
  split.
  - unfold onTimeout.
    cbn [timers]. rewrite findTimer_clearTimer. reflexivity.
  - rewrite mapGet_mapDelete. reflexivity.
Qed.

Lemma search_results_resolve_waiter_witness :
  snd (onLine (JsonLine (Some (lit "search_results")) (Some (lit "q1")) None)
         (snd (waitForSearchResults (lit "q1") 30000 noSearches)))
  = [SResolve 0 []; SReceived (lit "q1")].
Proof.
  destruct (search_results_resolve_waiter noSearches (lit "q1") 30000 None)
    as [H _].
  apply H. vm_compute. discriminate.
Defined.

Lemma findTimer_fresh (l : list timer) t k p d :
  (forall tm, In tm l -> timerOf tm < t) ->
  findTimer t (l ++ [mkTimer t k p d]) = Some (mkTimer t k p d).
Proof.
  unfold findTimer. induction l as [|tm l IH]; simpl; intros H.
  - rewrite Nat.eqb_refl. reflexivity.
  - assert (timerOf tm < t) as Hlt by (apply H; auto).
    destruct (Nat.eqb (timerOf tm) t) eqn:E.
    + apply Nat.eqb_eq in E. lia.
    + apply IH. intros tm' Hin. apply H. auto.
Qed.

(** X22. When the timer of a wait fires first, its promise is rejected
    with "Search timeout" and the search is no longer pending; results
    that arrive afterwards are ignored and the timer does not fire
    again. *)
Theorem search_timeout_rejects_waiter evs k d results :
  let s := fst (searchRun evs noSearches) in
  let p := fst (waitForSearchResults k d s) in
  let s1 := snd (waitForSearchResults k d s) in
  let s2 := fst (onTimeout (timersCreated s) s1) in
  snd (onTimeout (timersCreated s) s1) = [SReject p (lit "Search timeout")]
  /\ mapGet k (pendingSearches s2) = None
  /\ onLine (JsonLine (Some (lit "search_results")) (Some k) results) s2
     = (s2, [])
  /\ onTimeout (timersCreated s) s2 = (s2, []).
Proof.
  cbv zeta.
  pose proof (searchesInv_run evs noSearches [] searchesInv_start)
    as (_ & _ & _ & _ & I5 & _).
  set (s := fst (searchRun evs noSearches)) in *.
  unfold waitForSearchResults, onTimeout.
  cbn [fst snd pendingSearches timers promisesCreated timersCreated].
  rewrite findTimer_fresh by (intros tm Hin; apply (I5 tm Hin)).
  cbn [fst snd pendingSearches timers promisesCreated timersCreated
       timerSearch timerPromise].
  split; [reflexivity|].
  split; [apply mapGet_mapDelete|].
  split.
  - unfold onLine. destruct k as [|c i]; [reflexivity|].
    cbn [pendingSearches]. rewrite mapGet_mapDelete.
    destruct (jsstring_eqb _ _); reflexivity.
  - rewrite findTimer_clearTimer. reflexivity.
Qed.

Lemma clearTimer_fresh (l : list timer) t :
  (forall tm, In tm l -> timerOf tm < t) -> clearTimer t l = l.
Proof.
  unfold clearTimer. induction l as [|tm l IH]; simpl; intros H; auto.
  assert (timerOf tm < t) as Hlt by (apply H; auto).
  destruct (Nat.eqb (timerOf tm) t) eqn:E.
  - apply Nat.eqb_eq in E. lia.
  - simpl. f_equal. apply IH. intros tm' Hin. apply H. auto.
Qed.

(** X23. A second wait with the same identifier, when it is not empty,
    replaces the entry of the first: the results resolve the second
    promise only, and the first is rejected when its timer fires.  Under
    the empty identifier the results resolve neither. *)
Theorem search_second_wait_shadows_first evs k d1 d2 results :
  let s := fst (searchRun evs noSearches) in
  let p1 := promisesCreated s in
  let t1 := timersCreated s in
  let s2 := snd (waitForSearchResults k d2
                   (snd (waitForSearchResults k d1 s))) in
  let line := JsonLine (Some (lit "search_results")) (Some k) results in
  let s3 := fst (onLine line s2) in
  (k <> [] ->
   snd (onLine line s2)
   = [SResolve (S p1) (match results with Some r => r | None => [] end);
      SReceived k]
   /\ snd (onTimeout t1 s3) = [SReject p1 (lit "Search timeout")])
  /\ (k = [] -> onLine line s2 = (s2, [])).
Proof.
  cbv zeta. split; [|intros ->; reflexivity].
  intros Hk. destruct k as [|c i]; [congruence|].
  pose proof (searchesInv_run evs noSearches [] searchesInv_start)
    as (_ & _ & _ & _ & I5 & _).
  set (s := fst (searchRun evs noSearches)) in *.
  unfold waitForSearchResults, onLine.
  cbn [fst snd pendingSearches timers promisesCreated timersCreated].
  replace (jsstring_eqb (lit "search_results") (lit "search_results"))
    with true by (vm_compute; reflexivity).
  rewrite mapGet_mapSet.
  cbn [fst snd pendingSearches timers promisesCreated timersCreated
       pendingPromise pendingTimeout].
  split; [reflexivity|].
  unfold onTimeout. cbn [timers].
  assert (clearTimer (S (timersCreated s))
            ((timers s ++ [mkTimer (timersCreated s) (c :: i)
                             (promisesCreated s) d1])
               ++ [mkTimer (S (timersCreated s)) (c :: i)
                     (S (promisesCreated s)) d2])
          = timers s ++ [mkTimer (timersCreated s) (c :: i)
                           (promisesCreated s) d1]) as ->.
  { unfold clearTimer. rewrite filter_app. cbn [filter timerOf].
    rewrite Nat.eqb_refl. cbn [negb]. rewrite app_nil_r.
    apply clearTimer_fresh. intros tm Hin.
    apply in_app_or in Hin. destruct Hin as [Hin|[<-|[]]].
    - destruct (I5 tm Hin) as (_ & _ & H). lia.
    - cbn [timerOf]. lia. }
  rewrite findTimer_fresh by (intros tm Hin; apply (I5 tm Hin)).
  reflexivity.
Qed.

Lemma search_second_wait_shadows_first_witness :
  snd (onLine (JsonLine (Some (lit "search_results")) (Some (lit "q1")) None)
         (snd (waitForSearchResults (lit "q1") 30000
                 (snd (waitForSearchResults (lit "q1") 30000 noSearches)))))
  = [SResolve 1 []; SReceived (lit "q1")].
Proof.
  destruct (search_second_wait_shadows_first [] (lit "q1") 30000 30000 None)
    as [H _].
  apply H. vm_compute. discriminate.
Defined.
